(** * Particle filter (lab3_particlefilter/src/particle_filter.py)

    A shallow embedding of the class [ParticleFilter] and the properties of
    its methods [__init__], [predict], [weight], [resample] and
    [get_mean_particle].

    Numbers: numpy's float64 values are idealised as real numbers ([R]);
    Python integers are [Z].  Arrays owned by the filter ([p_wei], [p_ang],
    [p_xy]) live in an object store and are named by references, because
    [resample] binds a second name to them and updates them in place.
    Random draws are inputs of the call that consumes them.  An exception
    ends the call ([Raise]); the [while] loop of [resample] runs on fuel. *)

From Stdlib Require Import Reals.Reals Lra Lia ZArith List Bool.
Import ListNotations.

Open Scope R_scope.

(** ** Outcomes of a call *)

Inductive exn : Type := IndexError | ValueError | ZeroDivisionError.

Inductive result (A : Type) : Type :=
| Ok (a : A)
| Raise (e : exn)
| OutOfFuel.

Arguments Ok {A} a.
Arguments Raise {A} e.
Arguments OutOfFuel {A}.

Definition bind {A B : Type} (r : result A) (k : A -> result B) : result B :=
  match r with
  | Ok a => k a
  | Raise e => Raise e
  | OutOfFuel => OutOfFuel
  end.

Notation "x <- e ;; k" := (bind e (fun x => k))
  (at level 61, e at next level, right associativity).
Notation "' p <- e ;; k" := (bind e (fun x => match x with p => k end))
  (at level 61, p pattern, e at next level, right associativity).

(** [for x in xs: s = body(x, s)], stopping at the first exception. *)
Fixpoint for_each {A S : Type} (xs : list A) (body : A -> S -> result S) (s : S)
  : result S :=
  match xs with
  | [] => Ok s
  | x :: xs' => s' <- body x s ;; for_each xs' body s'
  end.

(** [range(n)] for a Python integer [n]: empty when [n <= 0]. *)
Definition range (n : Z) : list Z := List.map Z.of_nat (seq 0 (Z.to_nat n)).

(** ** numpy on one-dimensional arrays *)

Definition Rsum (a : list R) : R := fold_right Rplus 0 a.

(** [a[k]]: a negative index counts from the end; out of range raises. *)
Definition norm_index (len : nat) (k : Z) : result nat :=
  let n := Z.of_nat len in
  let k' := if (k <? 0)%Z then (k + n)%Z else k in
  if ((0 <=? k') && (k' <? n))%Z then Ok (Z.to_nat k') else Raise IndexError.

Definition getitem (a : list R) (k : Z) : result R :=
  j <- norm_index (length a) k ;; Ok (nth j a 0).

Fixpoint list_set (a : list R) (j : nat) (v : R) : list R :=
  match a, j with
  | [], _ => []
  | _ :: t, O => v :: t
  | x :: t, S j' => x :: list_set t j' v
  end.

(** [a[k] = v] in place. *)
Definition setitem (a : list R) (k : Z) (v : R) : result (list R) :=
  j <- norm_index (length a) k ;; Ok (list_set a j v).

Fixpoint zip_with (f : R -> R -> R) (a b : list R) : list R :=
  match a, b with
  | x :: a', y :: b' => f x y :: zip_with f a' b'
  | _, _ => []
  end.

(** [a op b]: equal lengths, or one operand of length 1 is stretched. *)
Definition broadcast (f : R -> R -> R) (a b : list R) : result (list R) :=
  if Nat.eqb (length a) (length b) then Ok (zip_with f a b)
  else match a, b with
       | _, [y] => Ok (List.map (fun x => f x y) a)
       | [x], _ => Ok (List.map (fun y => f x y) b)
       | _, _ => Raise ValueError
       end.

(** [a op= b]: the result must have the shape of [a]. *)
Definition broadcast_inplace (f : R -> R -> R) (a b : list R) : result (list R) :=
  if Nat.eqb (length a) (length b) then Ok (zip_with f a b)
  else match b with
       | [y] => Ok (List.map (fun x => f x y) a)
       | _ => Raise ValueError
       end.

(** [np.min] and [np.max] have no identity: an empty array raises. *)
Definition np_min (a : list R) : result R :=
  match a with
  | [] => Raise ValueError
  | x :: t => Ok (fold_left Rmin t x)
  end.

Definition np_max (a : list R) : result R :=
  match a with
  | [] => Raise ValueError
  | x :: t => Ok (fold_left Rmax t x)
  end.

(** [np.ones(n)] and [np.random.rand(n)] refuse a negative length.  The
    values drawn are [rnd off], [rnd (off+1)], ... *)
Definition np_ones (n : Z) : result (list R) :=
  if (n <? 0)%Z then Raise ValueError else Ok (repeat 1 (Z.to_nat n)).

Definition take (rnd : nat -> R) (off n : nat) : list R :=
  List.map rnd (seq off n).

Definition draws (rnd : nat -> R) (off : nat) (n : Z) : result (list R) :=
  if (n <? 0)%Z then Raise ValueError else Ok (take rnd off (Z.to_nat n)).

(** Division of Python floats raises on a zero divisor; numpy's float64
    division does not and is [Rdiv] here. *)
Definition py_div (a b : R) (b_is_zero : bool) : result R :=
  if b_is_zero then Raise ZeroDivisionError else Ok (a / b).

(** [np.arctan2(y, x)]. *)
Definition arctan2 (y x : R) : R :=
  if Rlt_dec 0 x then atan (y / x)
  else if Rlt_dec x 0 then
         (if Rle_dec 0 y then atan (y / x) + PI else atan (y / x) - PI)
  else if Rlt_dec 0 y then PI / 2
  else if Rlt_dec y 0 then - (PI / 2)
  else 0.

(** ** The object store *)

Definition ref := nat.

(** One-dimensional arrays of shape (N,) and two-row arrays of shape (2,N)
    (the two rows), each kind in its own store; [next] is the first
    unused reference. *)
Record heap : Type := Heap {
  vec : ref -> list R;
  mat : ref -> list R * list R;
  next : ref
}.

Definition upd {A : Type} (f : ref -> A) (r : ref) (a : A) : ref -> A :=
  fun r' => if Nat.eqb r' r then a else f r'.

Definition vec_set (h : heap) (r : ref) (a : list R) : heap :=
  Heap (upd (vec h) r a) (mat h) (next h).

Definition mat_set (h : heap) (r : ref) (a : list R * list R) : heap :=
  Heap (vec h) (upd (mat h) r a) (next h).

Definition vec_alloc (h : heap) (a : list R) : ref * heap :=
  (next h, Heap (upd (vec h) (next h) a) (mat h) (S (next h))).

Definition mat_alloc (h : heap) (a : list R * list R) : ref * heap :=
  (next h, Heap (vec h) (upd (mat h) (next h) a) (S (next h))).

Definition empty_heap : heap := Heap (fun _ => []) (fun _ => ([], [])) 0%nat.

(** ** The filter object *)

(** A row [[x1 y1 x2 y2]] of the map or of the observed lines. *)
Definition line : Type := (R * R * R * R)%type.

Definition col (l : line) (k : nat) : R :=
  let '(x1, y1, x2, y2) := l in
  match k with
  | 0%nat => x1
  | 1%nat => y1
  | 2%nat => x2
  | _ => y2
  end.

(** The attribute [map] is the field [room_map]. *)
Record ParticleFilter : Type := MkPF {
  room_map : list line;
  num : Z;
  odom_lin_sigma : R;
  odom_ang_sigma : R;
  meas_rng_noise : R;
  meas_ang_noise : R;
  p_wei : ref;
  p_ang : ref;
  p_xy : ref;
  moving : bool;
  n_eff : R
}.

Definition set_p_wei (s : ParticleFilter) (r : ref) : ParticleFilter :=
  MkPF (room_map s) (num s) (odom_lin_sigma s) (odom_ang_sigma s)
       (meas_rng_noise s) (meas_ang_noise s) r (p_ang s) (p_xy s)
       (moving s) (n_eff s).

Definition set_p_ang (s : ParticleFilter) (r : ref) : ParticleFilter :=
  MkPF (room_map s) (num s) (odom_lin_sigma s) (odom_ang_sigma s)
       (meas_rng_noise s) (meas_ang_noise s) (p_wei s) r (p_xy s)
       (moving s) (n_eff s).

Definition set_p_xy (s : ParticleFilter) (r : ref) : ParticleFilter :=
  MkPF (room_map s) (num s) (odom_lin_sigma s) (odom_ang_sigma s)
       (meas_rng_noise s) (meas_ang_noise s) (p_wei s) (p_ang s) r
       (moving s) (n_eff s).

Definition set_moving (s : ParticleFilter) (b : bool) : ParticleFilter :=
  MkPF (room_map s) (num s) (odom_lin_sigma s) (odom_ang_sigma s)
       (meas_rng_noise s) (meas_ang_noise s) (p_wei s) (p_ang s) (p_xy s)
       b (n_eff s).

Definition set_n_eff (s : ParticleFilter) (x : R) : ParticleFilter :=
  MkPF (room_map s) (num s) (odom_lin_sigma s) (odom_ang_sigma s)
       (meas_rng_noise s) (meas_ang_noise s) (p_wei s) (p_ang s) (p_xy s)
       (moving s) x.

(** ** [__init__]

    [rnd k] is the k-th value returned by [np.random.rand] during the call,
    a number of [0, 1). *)
Definition init (room_map0 : list line) (num0 : Z)
    (odom_lin_sigma0 odom_ang_sigma0 meas_rng_noise0 meas_ang_noise0 : R)
    (x_init y_init theta_init : R) (rnd : nat -> R) (h : heap)
  : result (heap * ParticleFilter) :=
  let n := Z.to_nat num0 in
  map_xmin <- np_min (List.map (fun l => col l 0) room_map0) ;;
  map_xmax <- np_max (List.map (fun l => col l 0) room_map0) ;;
  map_ymin <- np_min (List.map (fun l => col l 1) room_map0) ;;
  map_ymax <- np_max (List.map (fun l => col l 1) room_map0) ;;
  q <- py_div 1 (IZR num0) (num0 =? 0)%Z ;;
  ones <- np_ones num0 ;;
  let '(wei, h1) := vec_alloc h (List.map (fun o => q * o) ones) in
  u <- draws rnd 0 num0 ;;
  let '(ang, h2) := vec_alloc h1 (List.map (fun x => 2 * PI * x) u) in
  ux <- draws rnd n num0 ;;
  uy <- draws rnd (n + n) num0 ;;
  let '(xy, h3) :=
    mat_alloc h2 (List.map (fun x => x_init + 1 * x - 0.5) ux,
                  List.map (fun y => y_init + 1 * y - 0.5) uy) in
  Ok (h3, MkPF room_map0 num0 odom_lin_sigma0 odom_ang_sigma0
               meas_rng_noise0 meas_ang_noise0 wei ang xy false 0).

(** ** The methods

    [get_polar_line] and [angle_wrap] are imported from
    [probabilistic_lib.functions], which is not part of this module: they
    are parameters of the development.  [get_polar_line line odom] is the
    pair (range, bearing) of a line seen from the pose [odom]; called with
    one argument it uses its default pose, [default_odom].  [angle_wrap]
    acts on every element of an array and returns a new array. *)

Section Methods.

Variable get_polar_line : line -> R * R * R -> R * R.
Variable default_odom : R * R * R.
Variable angle_wrap : R -> R.

(** *** [predict]

    [gauss k] is the k-th value returned by [np.random.randn] during the
    call. *)
Definition is_zero_odom (odom : R * R * R) : bool :=
  let '(odom0, odom1, odom2) := odom in
  (if Req_dec_T odom0 0 then true else false)
  && (if Req_dec_T odom1 0 then true else false)
  && (if Req_dec_T odom2 0 then true else false).

Definition predict (s : ParticleFilter) (odom : R * R * R) (gauss : nat -> R)
    (h : heap) : result (heap * ParticleFilter) :=
  let '(odom0, odom1, odom2) := odom in
  if is_zero_odom odom then Ok (h, set_moving s false)
  else
    let ang := vec h (p_ang s) in
    let shape1 := length (fst (mat h (p_xy s))) in
    let shape0 := length ang in
    let odomx := List.map (fun a => odom0 * cos a - odom1 * sin a) ang in
    let odomy := List.map (fun a => odom0 * sin a + odom1 * cos a) ang in
    odomx <- broadcast_inplace Rplus odomx
               (List.map (Rmult (odom_lin_sigma s)) (take gauss 0 shape1)) ;;
    odomy <- broadcast_inplace Rplus odomy
               (List.map (Rmult (odom_lin_sigma s)) (take gauss shape1 shape1)) ;;
    let odomt := List.map (fun g => odom2 + odom_ang_sigma s * g)
                          (take gauss (shape1 + shape1) shape0) in
    row0 <- broadcast_inplace Rplus (fst (mat h (p_xy s))) odomx ;;
    let h := mat_set h (p_xy s) (row0, snd (mat h (p_xy s))) in
    row1 <- broadcast_inplace Rplus (snd (mat h (p_xy s))) odomy ;;
    let h := mat_set h (p_xy s) (fst (mat h (p_xy s)), row1) in
    ang' <- broadcast_inplace Rplus (vec h (p_ang s)) odomt ;;
    let h := vec_set h (p_ang s) ang' in
    let '(wrapped, h) := vec_alloc h (List.map angle_wrap (vec h (p_ang s))) in
    Ok (h, set_moving (set_p_ang s wrapped) true).

(** *** [weight] *)

Definition val_rng (s : ParticleFilter) : R :=
  1 / (meas_rng_noise s * sqrt (2 * PI)).

Definition val_ang (s : ParticleFilter) : R :=
  1 / (meas_ang_noise s * sqrt (2 * PI)).

(** One entry of the arrays [wr] and [wt]: [meas] is the observed line and
    [room_k] a map line, both as (range, bearing). *)
Definition wr (s : ParticleFilter) (meas room_k : R * R) : R :=
  val_rng s * exp (- (fst meas - fst room_k) ^ 2
                   / (2 * meas_rng_noise s * meas_rng_noise s)).

Definition wt (s : ParticleFilter) (meas room_k : R * R) : R :=
  val_ang s * exp (- (snd meas - snd room_k) ^ 2
                   / (2 * meas_rng_noise s * meas_rng_noise s)).

(** [rooml] and [measl]: the length of a segment. *)
Definition seg_len (l : line) : R :=
  sqrt ((col l 1 - col l 3) * (col l 1 - col l 3)
        + (col l 2 - col l 0) * (col l 2 - col l 0)).

(** The loop over [k]: entry [k] is set to 0 when map line [k] is shorter
    than the observed line. *)
Fixpoint gated (lines_j : line) (map_rows : list line) (w : list R) : list R :=
  match map_rows, w with
  | map_k :: map_rows', x :: w' =>
      (if Rlt_dec (seg_len map_k) (seg_len lines_j) then 0 else x)
      :: gated lines_j map_rows' w'
  | _, _ => w
  end.

(** The array [wr*wt] for the observed line [lines_j], after the loop
    over [k]. *)
Definition likelihoods (s : ParticleFilter) (room : list (R * R)) (lines_j : line)
  : list R :=
  let meas := get_polar_line lines_j default_odom in
  let wr_ := gated lines_j (room_map s) (List.map (wr s meas) room) in
  let wt_ := gated lines_j (room_map s) (List.map (wt s meas) room) in
  zip_with Rmult wr_ wt_.

(** The body of the loop over the particles.  In [p_wei[i] *= e] the
    element is read before [e] is evaluated. *)
Definition weight_particle (s : ParticleFilter) (lines : list line) (i : Z)
    (h : heap) : result heap :=
  x <- getitem (fst (mat h (p_xy s))) i ;;
  y <- getitem (snd (mat h (p_xy s))) i ;;
  a <- getitem (vec h (p_ang s)) i ;;
  let odompass := (x, y, a) in
  let room := List.map (fun map_j => get_polar_line map_j odompass) (room_map s) in
  for_each lines
    (fun lines_j h =>
       w <- getitem (vec h (p_wei s)) i ;;
       best <- np_max (likelihoods s room lines_j) ;;
       wei <- setitem (vec h (p_wei s)) i (w * best) ;;
       Ok (vec_set h (p_wei s) wei))
    h.

Definition weight (s : ParticleFilter) (lines : list line) (h : heap)
  : result (heap * ParticleFilter) :=
  h <- for_each (range (num s)) (weight_particle s lines) h ;;
  let total := Rsum (vec h (p_wei s)) in
  let h := vec_set h (p_wei s) (List.map (fun w => w / total) (vec h (p_wei s))) in
  let wei := vec h (p_wei s) in
  Ok (h, set_n_eff s (1 / Rsum (zip_with Rmult wei wei))).

(** *** [resample]

    [v] is the value returned by [np.random.uniform(0.0, 1.0)], a number
    of [0, 1). *)

(** The [while] loop: from the pointer [m] and the running sum [c] to the
    pointer and sum at which [u > c] fails. *)
Fixpoint advance (fuel : nat) (s : ParticleFilter) (h : heap) (u : R) (m : Z)
    (c : R) : result (Z * R) :=
  if Rgt_dec u c then
    match fuel with
    | O => OutOfFuel
    | S fuel' =>
        let m := (m + 1)%Z in
        let m := (m mod num s)%Z in
        w <- getitem (vec h (p_wei s)) m ;;
        advance fuel' s h u m (c + w)
    end
  else Ok (m, c).

(** The state of the [for] loop; [picks] records, oldest first, the
    pointer [m] used by each iteration (it is not a variable of the
    program). *)
Record walk : Type := Walk {
  w_heap : heap;
  w_m : Z;
  w_c : R;
  picks : list Z
}.

(** The body of the [for] loop; [xy] and [ang] are the local names. *)
Definition resample_step (fuel : nat) (s : ParticleFilter) (xy ang : ref)
    (r : R) (i : Z) (st : walk) : result walk :=
  let h := w_heap st in
  let u := r + (1 * IZR i) / (IZR (num s) * 1) in
  '(m, c) <- advance fuel s h u (w_m st) (w_c st) ;;
  a <- getitem (vec h (p_ang s)) m ;;
  ang_arr <- setitem (vec h ang) i a ;;
  let h := vec_set h ang ang_arr in
  x <- getitem (fst (mat h (p_xy s))) m ;;
  y <- getitem (snd (mat h (p_xy s))) m ;;
  row0 <- setitem (fst (mat h xy)) i x ;;
  row1 <- setitem (snd (mat h xy)) i y ;;
  let h := mat_set h xy (row0, row1) in
  Ok (Walk h m c (picks st ++ [m])).

Definition resample_walk (fuel : nat) (s : ParticleFilter) (v : R) (h : heap)
  : result (ref * ref * walk) :=
  let xy := p_xy s in
  let ang := p_ang s in
  r <- py_div v (1 * IZR (num s)) (num s =? 0)%Z ;;
  c <- getitem (vec h (p_wei s)) 1 ;;
  let m := 0%Z in
  st <- for_each (range (num s)) (resample_step fuel s xy ang r) (Walk h m c []) ;;
  Ok (xy, ang, st).

Definition resample (fuel : nat) (s : ParticleFilter) (v : R) (h : heap)
  : result (heap * ParticleFilter) :=
  '(xy, ang, st) <- resample_walk fuel s v h ;;
  let h := w_heap st in
  let s := set_p_xy s xy in
  let s := set_p_ang s ang in
  q <- py_div 1 (IZR (num s)) (num s =? 0)%Z ;;
  ones <- np_ones (num s) ;;
  let '(wei, h) := vec_alloc h (List.map (fun o => q * o) ones) in
  Ok (h, set_p_wei s wei).

(** *** [get_mean_particle] *)
Definition get_mean_particle (s : ParticleFilter) (h : heap) : result (R * R * R) :=
  let wei := vec h (p_wei s) in
  let ang := vec h (p_ang s) in
  wx <- broadcast Rmult (fst (mat h (p_xy s))) wei ;;
  wy <- broadcast Rmult (snd (mat h (p_xy s))) wei ;;
  let mean0 := Rsum wx / Rsum wei in
  let mean1 := Rsum wy / Rsum wei in
  ws <- broadcast Rmult wei (List.map sin ang) ;;
  wc <- broadcast Rmult wei (List.map cos ang) ;;
  Ok (mean0, mean1, arctan2 (Rsum ws / Rsum wei) (Rsum wc / Rsum wei)).

(** *** The life of a filter

    The states a filter goes through: constructed by [__init__], then
    changed by calls of [predict], [weight] and [resample] that return.
    [reachable n s h] also records the particle count [n] given at
    construction. *)
Inductive reachable : Z -> ParticleFilter -> heap -> Prop :=
| reach_init (rm : list line) (n : Z) (ols oas mrn man x y t : R)
    (rnd : nat -> R) (h0 h : heap) (s : ParticleFilter) :
    init rm n ols oas mrn man x y t rnd h0 = Ok (h, s) ->
    reachable n s h
| reach_predict (n : Z) (s s' : ParticleFilter) (h h' : heap)
    (odom : R * R * R) (gauss : nat -> R) :
    reachable n s h ->
    predict s odom gauss h = Ok (h', s') ->
    reachable n s' h'
| reach_weight (n : Z) (s s' : ParticleFilter) (h h' : heap) (lines : list line) :
    reachable n s h ->
    weight s lines h = Ok (h', s') ->
    reachable n s' h'
| reach_resample (n : Z) (s s' : ParticleFilter) (h h' : heap) (fuel : nat) (v : R) :
    reachable n s h ->
    resample fuel s v h = Ok (h', s') ->
    reachable n s' h'.

End Methods.

(** ** Predicates on filters *)

(** The three arrays hold [n] particles. *)
Definition particles (n : nat) (s : ParticleFilter) (h : heap) : Prop :=
  length (vec h (p_wei s)) = n /\
  length (vec h (p_ang s)) = n /\
  length (fst (mat h (p_xy s))) = n /\
  length (snd (mat h (p_xy s))) = n.

(** What [__init__] establishes and every method keeps: a non-empty map,
    at least one particle, [num] particles in each array, and weights and
    headings held by two different, allocated arrays. *)
Definition well_formed (s : ParticleFilter) (h : heap) : Prop :=
  room_map s <> [] /\
  (1 <= num s)%Z /\
  particles (Z.to_nat (num s)) s h /\
  p_wei s <> p_ang s /\
  (p_wei s < next h)%nat /\ (p_ang s < next h)%nat /\ (p_xy s < next h)%nat.

Definition wrapped (a : R) : Prop := - PI < a <= PI.

(** From [h] to [h'] only the contents of the weight array changed; its
    length did not. *)
Definition only_weights (s : ParticleFilter) (h h' : heap) : Prop :=
  (forall r, r <> p_wei s -> vec h' r = vec h r) /\
  (forall r, mat h' r = mat h r) /\
  next h' = next h /\
  length (vec h' (p_wei s)) = length (vec h (p_wei s)).

(** The final state in terms of the raw weights left by the loop. *)
Definition normalized (s : ParticleFilter) (h1 : heap) : heap * ParticleFilter :=
  let raw := vec h1 (p_wei s) in
  let wei := List.map (fun w => w / Rsum raw) raw in
  (vec_set h1 (p_wei s) wei, set_n_eff s (1 / Rsum (zip_with Rmult wei wei))).

(** What the loop of [resample] keeps, [h] being the store at the call:
    the pointer is an index, the weights are not written, the arrays keep
    their lengths, and every heading present is a heading of [h]. *)
Definition walk_inv (s : ParticleFilter) (h : heap) (st : walk) : Prop :=
  (0 <= w_m st < num s)%Z /\
  vec (w_heap st) (p_wei s) = vec h (p_wei s) /\
  length (vec (w_heap st) (p_ang s)) = length (vec h (p_ang s)) /\
  length (fst (mat (w_heap st) (p_xy s))) = length (fst (mat h (p_xy s))) /\
  length (snd (mat (w_heap st) (p_xy s))) = length (snd (mat h (p_xy s))) /\
  next (w_heap st) = next h /\
  (forall a, In a (vec (w_heap st) (p_ang s)) -> In a (vec h (p_ang s))).

(** ** Sums of weights *)

(** [prefix w m] is [w[0] + ... + w[m]]. *)
Definition prefix (w : list R) (m : nat) : R := Rsum (firstn (S m) w).

(** The running sum has kept up with the prefix sums (from index 1 on),
    or has passed the total weight. *)
Definition kept_up (w : list R) (m : Z) (c : R) : Prop :=
  1 <= c \/ prefix w (Z.to_nat m) <= c + nth 0 w 0.

(** Particle [k] has weight 1 and every other particle weight 0. *)
Definition one_hot (w : list R) (k : nat) : Prop :=
  (k < length w)%nat /\
  forall j, (j < length w)%nat -> nth j w 0 = if Nat.eqb j k then 1 else 0.

(** ** The claims' own terms *)

(** The Gaussian density of standard deviation [sigma], at the distance
    [d] from its mean. *)
Definition gaussian_density (sigma d : R) : R :=
  1 / (sigma * sqrt (2 * PI)) * exp (- d ^ 2 / (2 * sigma * sigma)).

(** The systematic rule in the words of the specification: the thresholds
    are [u_i = r + i/N]; the pointer [m] starts at 0 and the running sum
    [c] at [weight[m]]; while [c < u_i] the pointer advances, wrapping
    modulo N, and [weight[m]] is added to [c]; draw [i] selects the index
    [m] then reached. *)
Fixpoint rule_advance (fuel : nat) (weight_ : list R) (u : R) (m : Z) (c : R)
  : result (Z * R) :=
  if Rlt_dec c u then
    match fuel with
    | O => OutOfFuel
    | S fuel' =>
        let m := ((m + 1) mod Z.of_nat (length weight_))%Z in
        x <- getitem weight_ m ;;
        rule_advance fuel' weight_ u m (c + x)
    end
  else Ok (m, c).

Definition systematic_rule (fuel : nat) (weight_ : list R) (r : R)
  : result (list Z) :=
  let n := Z.of_nat (length weight_) in
  let m := 0%Z in
  c <- getitem weight_ m ;;
  '(_, _, selected) <-
    for_each (range n)
      (fun i '(m, c, selected) =>
         '(m, c) <- rule_advance fuel weight_ (r + IZR i / IZR n) m c ;;
         Ok (m, c, selected ++ [m]))
      (m, c, []) ;;
  Ok selected.

(** ** The imported helpers *)

(** Modelled from the spec: [angle_wrap] of [probabilistic_lib.functions],
    which is not among the sources.  The spec has the heading re-wrapped
    "to (−π, π]": the angle of that interval which differs from [a] by a
    multiple of 2π. *)
Definition angle_wrap_model (a : R) : R :=
  a - 2 * PI * IZR (1 - up ((PI - a) / (2 * PI))).

(** Modelled from the spec: [get_polar_line] of
    [probabilistic_lib.functions], which is not among the sources.  The
    spec has "a line segment expressed as (range, bearing) relative to an
    observer pose": the distance from the pose to the line through the
    segment, and the direction of the perpendicular dropped on it, seen
    from the pose's heading. *)
Definition get_polar_line_model (l : line) (odom : R * R * R) : R * R :=
  let '(x, y, theta) := odom in
  let a := col l 1 - col l 3 in
  let b := col l 2 - col l 0 in
  let c := col l 0 * col l 3 - col l 2 * col l 1 in
  let dist := (a * x + b * y + c) / sqrt (a * a + b * b) in
  let ang := if Rlt_dec dist 0 then arctan2 b a else arctan2 (- b) (- a) in
  (Rabs dist, angle_wrap_model (ang - theta)).

(** Modelled from the spec: the pose [get_polar_line] uses when it is
    given none; observed lines are "in the robot's local frame", whose
    origin is the robot. *)
Definition origin : R * R * R := (0, 0, 0).

(** ** Example filters *)

(** Three particles with the weights 0.2, 0.5, 0.3, the headings 0, 1, 2
    and the positions (0,0), (0,1), (0,2), in a map of one segment of
    length 1; the range noise is 1 and the bearing noise 2. *)
Definition example_heap : heap :=
  Heap (fun r => match r with
                 | 0%nat => [1 / 5; 1 / 2; 3 / 10]
                 | 1%nat => [0; 1; 2]
                 | _ => []
                 end)
       (fun r => match r with
                 | 2%nat => ([0; 0; 0], [0; 1; 2])
                 | _ => ([], [])
                 end)
       3%nat.

Definition example_filter : ParticleFilter :=
  MkPF [(0, 0, 1, 0)] 3 1 1 1 2 0%nat 1%nat 2%nat false 0.

(** An observed segment of length 2, longer than the segment of the
    example map. *)
Definition long_line : line := (0, 0, 2, 0).

(** The example filter with weights 1/2, 1/4, 1/8, which do not sum to 1. *)
Definition skewed_heap : heap :=
  vec_set example_heap (p_wei example_filter) [1 / 2; 1 / 4; 1 / 8].

(** The example filter with all the weight on particle 1. *)
Definition single_heap : heap :=
  vec_set example_heap (p_wei example_filter) [0; 1; 0].

(** The pose of particle [k]: its position and its heading. *)
Definition pose_at (s : ParticleFilter) (h : heap) (k : nat) : R * R * R :=
  (nth k (fst (mat h (p_xy s))) 0,
   nth k (snd (mat h (p_xy s))) 0,
   nth k (vec h (p_ang s)) 0).

(** * The waypoint driver (lab1_turtlebot/src/driver.py)

    The class [driver] follows a list of goals: each odometry message
    updates the pose, a velocity command is computed and published, and
    the active goal advances when it is reached.  The ROS node is a record
    of what it was sent: the messages published and the shutdown
    request.  [rospy.loginfo] is kept as the evaluation of its
    arguments, which may raise; its text is not.  The goal file of
    [load_goals] is its rows, each field being the number [float] makes
    of it, or none when [float] raises.  [drive], which sleeps until
    shutdown, and the printing methods the callback does not use are not
    modelled. *)

Module Driver.

Inductive error : Type := IndexError | AttributeError | ValueError.

Inductive outcome (A : Type) : Type :=
| Done (a : A)
| Raised (e : error).

Arguments Done {A} a.
Arguments Raised {A} e.

Definition and_then {A B : Type} (r : outcome A) (k : A -> outcome B)
  : outcome B :=
  match r with
  | Done a => k a
  | Raised e => Raised e
  end.

Notation "x <-- e ;; k" := (and_then e (fun x => k))
  (at level 61, e at next level, right associativity).

(** [a[k]] on a numpy array or a list. *)
Definition item (a : list R) (k : Z) : outcome R :=
  let n := Z.of_nat (length a) in
  let k' := if (k <? 0)%Z then (k + n)%Z else k in
  if ((0 <=? k') && (k' <? n))%Z then Done (nth (Z.to_nat k') a 0)
  else Raised IndexError.

(** The fields of a [Twist] that the driver writes; the others stay 0. *)
Record Twist : Type := MkTwist { linear_x : R; angular_z : R }.

(** The fields of an [Odometry] message that the driver reads. *)
Record Odometry : Type := MkOdometry {
  position_x_of : R;
  position_y_of : R;
  orientation_of : R * R * R * R
}.

(** What the node was sent. *)
Record ros : Type := MkRos {
  published : list Twist;
  shutdown : bool
}.

(** The attributes [position_x], [position_y] and [position_theta] exist
    once [read_position] has run: [position] is then their triple. *)
Record driver : Type := MkDriver {
  x : list R;
  y : list R;
  theta : list R;
  goal_th_xy : R;
  goal_th_ang : R;
  active_goal : Z;
  vmsg : Twist;
  params_loaded : bool;
  mov : Z;
  position : option (R * R * R)
}.

Definition set_goals (d : driver) (gx gy gtheta : list R) : driver :=
  MkDriver gx gy gtheta (goal_th_xy d) (goal_th_ang d) (active_goal d) (vmsg d)
           (params_loaded d) (mov d) (position d).

Definition set_active_goal (d : driver) (k : Z) : driver :=
  MkDriver (x d) (y d) (theta d) (goal_th_xy d) (goal_th_ang d) k (vmsg d)
           (params_loaded d) (mov d) (position d).

Definition set_vmsg (d : driver) (v : Twist) : driver :=
  MkDriver (x d) (y d) (theta d) (goal_th_xy d) (goal_th_ang d) (active_goal d) v
           (params_loaded d) (mov d) (position d).

Definition set_params_loaded (d : driver) (b : bool) : driver :=
  MkDriver (x d) (y d) (theta d) (goal_th_xy d) (goal_th_ang d) (active_goal d)
           (vmsg d) b (mov d) (position d).

Definition set_mov (d : driver) (k : Z) : driver :=
  MkDriver (x d) (y d) (theta d) (goal_th_xy d) (goal_th_ang d) (active_goal d)
           (vmsg d) (params_loaded d) k (position d).

Definition set_position (d : driver) (p : R * R * R) : driver :=
  MkDriver (x d) (y d) (theta d) (goal_th_xy d) (goal_th_ang d) (active_goal d)
           (vmsg d) (params_loaded d) (mov d) (Some p).

Definition position_x (d : driver) : outcome R :=
  match position d with
  | Some (px, _, _) => Done px
  | None => Raised AttributeError
  end.

Definition position_y (d : driver) : outcome R :=
  match position d with
  | Some (_, py, _) => Done py
  | None => Raised AttributeError
  end.

Definition position_theta (d : driver) : outcome R :=
  match position d with
  | Some (_, _, pt) => Done pt
  | None => Raised AttributeError
  end.

(** [__init__]; the two thresholds are the values [rospy.get_param]
    returns. *)
Definition init (goal_thershold_xy goal_threshold_ang : R) : driver :=
  MkDriver [] [] [] goal_thershold_xy goal_threshold_ang 0 (MkTwist 0 0)
           false 0 None.

Section DriverMethods.

(** [angle_wrap] of [probabilistic_lib.functions] and
    [euler_from_quaternion] of [tf.transformations] are imported. *)
Variable angle_wrap : R -> R.
Variable euler_from_quaternion : R * R * R * R -> R * R * R.

Definition print_goal_and_pose (d : driver) : outcome unit :=
  _ <-- position_x d ;;
  _ <-- item (x d) (active_goal d) ;;
  _ <-- position_y d ;;
  _ <-- item (y d) (active_goal d) ;;
  _ <-- position_theta d ;;
  _ <-- item (theta d) (active_goal d) ;;
  Done tt.

Definition dist_to_goal_xy (d : driver) : outcome R :=
  px <-- position_x d ;;
  gx <-- item (x d) (active_goal d) ;;
  py <-- position_y d ;;
  gy <-- item (y d) (active_goal d) ;;
  Done (sqrt ((px - gx) ^ 2 + (py - gy) ^ 2)).

Definition dist_to_goal_ang (d : driver) : outcome R :=
  gt <-- item (theta d) (active_goal d) ;;
  pt <-- position_theta d ;;
  Done (Rabs (angle_wrap (gt - pt))).

Definition has_arrived_xy (d : driver) : outcome bool :=
  dist <-- dist_to_goal_xy d ;;
  Done (if Rlt_dec dist (goal_th_xy d) then true else false).

Definition has_arrived_ang (d : driver) : outcome bool :=
  dist <-- dist_to_goal_ang d ;;
  Done (if Rlt_dec dist (goal_th_ang d) then true else false).

Definition has_arrived (d : driver) : outcome bool :=
  a <-- has_arrived_xy d ;;
  if a then has_arrived_ang d else Done false.

Definition next_goal (d : driver) (w : ros) : driver * ros :=
  let d := set_active_goal d (active_goal d + 1) in
  let d := set_mov d 0 in
  if (Z.of_nat (length (x d)) <? active_goal d + 1)%Z
  then (d, MkRos (published w) true)
  else (d, w).

Definition check_goal (d : driver) (w : ros) : outcome (driver * ros) :=
  a <-- has_arrived d ;;
  if a then Done (next_goal d w) else Done (d, w).

Definition publish (d : driver) (w : ros) : ros :=
  MkRos (published w ++ [vmsg d]) (shutdown w).

Definition read_position (d : driver) (msg : Odometry) : driver :=
  set_position d
    (position_x_of msg, position_y_of msg,
     snd (euler_from_quaternion (orientation_of msg))).

Definition compute_velocity (d : driver) : outcome driver :=
  dist <-- dist_to_goal_xy d ;;
  if Rlt_dec dist (goal_th_xy d) then
    let d := set_vmsg d (MkTwist (linear_x (vmsg d)) 0.5) in
    let d := set_vmsg d (MkTwist 0 (angular_z (vmsg d))) in
    let d := set_mov d 0 in
    Done d
  else if (mov d =? 0)%Z then
    let d := set_vmsg d (MkTwist 0 (angular_z (vmsg d))) in
    gy <-- item (y d) (active_goal d) ;;
    py <-- position_y d ;;
    gx <-- item (x d) (active_goal d) ;;
    px <-- position_x d ;;
    let teta := arctan2 (gy - py) (gx - px) in
    pt <-- position_theta d ;;
    if Rlt_dec (Rabs (teta - pt)) 0.01 then
      let d := set_vmsg d (MkTwist (linear_x (vmsg d)) 0) in
      Done (set_mov d 1)
    else
      pt' <-- position_theta d ;;
      Done (set_vmsg d (MkTwist (linear_x (vmsg d)) ((teta - pt') / 3)))
  else if (mov d =? 1)%Z then
    _ <-- dist_to_goal_xy d ;;
    let d := set_vmsg d (MkTwist 0.15 (angular_z (vmsg d))) in
    Done (set_vmsg d (MkTwist (linear_x (vmsg d)) 0))
  else Done d.

(** [callback] returns its outcome and the driver and node as the
    statements that ran have left them. *)
Definition callback (d : driver) (w : ros) (msg : Odometry)
  : outcome unit * (driver * ros) :=
  let d := read_position d msg in
  match compute_velocity d with
  | Raised e => (Raised e, (d, w))
  | Done d =>
      let w := publish d w in
      match check_goal d w with
      | Raised e => (Raised e, (d, w))
      | Done (d, w) => (print_goal_and_pose d, (d, w))
      end
  end.

(** The callbacks of a sequence of messages, one after the other. *)
Definition callbacks (d : driver) (w : ros) (msgs : list Odometry)
  : driver * ros :=
  fold_left (fun dw msg => snd (callback (fst dw) (snd dw) msg)) msgs (d, w).

(** One row of the goal file: three appends, each reading a field. *)
Definition field (r : list (option R)) (k : nat) : outcome R :=
  match nth_error r k with
  | None => Raised IndexError
  | Some None => Raised ValueError
  | Some (Some v) => Done v
  end.

(** The loop over the rows; an exception leaves the driver as the
    appends already made have it. *)
Fixpoint load_rows (rows : list (list (option R))) (d : driver)
  : outcome driver * driver :=
  match rows with
  | [] => (Done d, d)
  | r :: rows' =>
      match field r 0 with
      | Raised e => (Raised e, d)
      | Done v0 =>
          let d := set_goals d (x d ++ [v0]) (y d) (theta d) in
          match field r 1 with
          | Raised e => (Raised e, d)
          | Done v1 =>
              let d := set_goals d (x d) (y d ++ [v1]) (theta d) in
              match field r 2 with
              | Raised e => (Raised e, d)
              | Done v2 =>
                  load_rows rows' (set_goals d (x d) (y d) (theta d ++ [v2]))
              end
          end
      end
  end.

(** [load_goals]: [file] is none when the parameter [file] is 0, and
    the rows of the file otherwise; [px], [py], [ptheta] are the values
    of the parameters [x], [y], [theta]. *)
Definition load_goals (d : driver) (file : option (list (list (option R))))
    (px py ptheta : R) : outcome driver * driver :=
  match file with
  | None =>
      let d := set_goals d (x d ++ [px]) (y d) (theta d) in
      let d := set_goals d (x d) (y d ++ [py]) (theta d) in
      let d := set_goals d (x d) (y d) (theta d ++ [ptheta]) in
      let d := set_params_loaded d true in
      (Done d, d)
  | Some rows =>
      match load_rows rows d with
      | (Raised e, d) => (Raised e, d)
      | (Done _, d) =>
          let d := set_params_loaded d true in
          (Done d, d)
      end
  end.

End DriverMethods.

End Driver.

(** ** Notions of the further properties *)

(** Every pose of the walk is a pose of the store [h] of the call. *)
Definition poses_from (s : ParticleFilter) (h : heap) (st : walk) : Prop :=
  forall i, (i < Z.to_nat (num s))%nat ->
  exists j, (j < Z.to_nat (num s))%nat /\
            pose_at s (w_heap st) i = pose_at s h j.

(** What the walk keeps on uniform weights: before draw [i] the arrays
    are as at the call, the pointer is at [i - 1] (at 0 for the first
    draw) and the running sum is [i/N] (1/N for the first draw). *)
Definition in_step (s : ParticleFilter) (h : heap) (i : Z) (st : walk) : Prop :=
  vec (w_heap st) (p_ang s) = vec h (p_ang s) /\
  mat (w_heap st) (p_xy s) = mat h (p_xy s) /\
  vec (w_heap st) (p_wei s) = vec h (p_wei s) /\
  next (w_heap st) = next h /\
  ((i = 0%Z /\ w_m st = 0%Z /\ w_c st = 1 / IZR (num s)) \/
   ((1 <= i)%Z /\ w_m st = (i - 1)%Z /\ w_c st = IZR i * (1 / IZR (num s)))).

(** The largest likelihood of the observed line [l] over the map, seen
    from [pose]: the value of [np.max(wr*wt)]. *)
Definition best_factor (get_polar_line : line -> R * R * R -> R * R)
    (default_odom : R * R * R) (s : ParticleFilter) (pose : R * R * R)
    (l : line) : R :=
  match likelihoods get_polar_line default_odom s
          (List.map (fun map_j => get_polar_line map_j pose) (room_map s)) l with
  | [] => 0
  | x :: t => fold_left Rmax t x
  end.

(** ** Notions of the driver's properties *)

(** The three goal arrays have one entry per goal. *)
Definition aligned (d : Driver.driver) : Prop :=
  length (Driver.y d) = length (Driver.x d) /\
  length (Driver.theta d) = length (Driver.x d).

(** The active goal is a goal or one past the last, and shutdown has been
    requested exactly when it is past the last of at least one goal. *)
Definition tracking (d : Driver.driver) (w : Driver.ros) : Prop :=
  (0 <= Driver.active_goal d <= Z.of_nat (length (Driver.x d)))%Z /\
  (Driver.shutdown w = true <->
   Driver.active_goal d = Z.of_nat (length (Driver.x d)) /\
   (0 < length (Driver.x d))%nat).

(** The distance of the pose [(px, py)] to the goal [k]. *)
Definition goal_distance (d : Driver.driver) (k : Z) (px py : R) : R :=
  sqrt ((px - nth (Z.to_nat k) (Driver.x d) 0) ^ 2 +
        (py - nth (Z.to_nat k) (Driver.y d) 0) ^ 2).

(** A driver with the one goal (1, 0, 0), a node that was sent nothing,
    and the odometry of a robot at the origin. *)
Definition example_driver : Driver.driver :=
  Driver.set_goals (Driver.init 0.4 0.01) [1] [0] [0].

Definition example_node : Driver.ros := Driver.MkRos [] false.

Definition example_odometry : Driver.Odometry :=
  Driver.MkOdometry 0 0 (0, 0, 0, 1).

Definition example_euler (q : R * R * R * R) : R * R * R := (0, 0, 0).

(** A row of the goal file whose first three fields give the goal [g]. *)
Definition row_of (r : list (option R)) (g : R * R * R) : Prop :=
  Driver.field r 0 = Driver.Done (fst (fst g)) /\
  Driver.field r 1 = Driver.Done (snd (fst g)) /\
  Driver.field r 2 = Driver.Done (snd g).

(** ** Tactics *)

(** Settles the comparisons of a goal whose operands [lra] can order. *)
Ltac decide_order :=
  repeat match goal with
    | |- context [Rlt_dec ?a ?b] => destruct (Rlt_dec a b); try lra
    | |- context [Rle_dec ?a ?b] => destruct (Rle_dec a b); try lra
    | |- context [Rgt_dec ?a ?b] => destruct (Rgt_dec a b); try lra
    end.

(** * Properties *)

(** ** Outcomes, indexing and loops *)

Lemma bind_Ok {A B : Type} (r : result A) (k : A -> result B) (b : B) :
  bind r k = Ok b -> exists a, r = Ok a /\ k a = Ok b.
Proof.
  destruct r as [a | e | ]; simpl; intros E; try discriminate.
  exists a; split; [reflexivity | exact E].
Qed.

Lemma norm_index_in_range (len : nat) (k : Z) :
  (0 <= k < Z.of_nat len)%Z -> norm_index len k = Ok (Z.to_nat k).
Proof.
  intros [H0 H1]. unfold norm_index.
  destruct (Z.ltb_spec k 0) as [Hn | _]; [lia | ].
  destruct (Z.leb_spec 0 k) as [_ | Hn]; [ | lia].
  destruct (Z.ltb_spec k (Z.of_nat len)) as [_ | Hn]; [reflexivity | lia].
Qed.

Lemma norm_index_Ok (len : nat) (k : Z) (j : nat) :
  norm_index len k = Ok j -> (j < len)%nat.
Proof.
  unfold norm_index.
  destruct (Z.ltb_spec k 0);
    match goal with
    | |- context [(?a <=? ?b)%Z] => destruct (Z.leb_spec a b)
    end;
    match goal with
    | |- context [(?a <? ?b)%Z] => destruct (Z.ltb_spec a b)
    end; simpl; intros E; inversion E; lia.
Qed.

Lemma getitem_in_range (a : list R) (k : Z) :
  (0 <= k < Z.of_nat (length a))%Z -> getitem a k = Ok (nth (Z.to_nat k) a 0).
Proof.
  intros H. unfold getitem. rewrite norm_index_in_range by exact H. reflexivity.
Qed.

Lemma getitem_Ok_In (a : list R) (k : Z) (x : R) :
  getitem a k = Ok x -> In x a.
Proof.
  unfold getitem. intros E. apply bind_Ok in E. destruct E as (j & Ej & E).
  inversion E; subst. apply nth_In. eapply norm_index_Ok; eassumption.
Qed.

Lemma list_set_length (a : list R) (j : nat) (v : R) :
  length (list_set a j v) = length a.
Proof.
  revert j. induction a as [ | x a IH]; intros [ | j]; simpl; auto.
Qed.

Lemma list_set_In (a : list R) (j : nat) (v x : R) :
  In x (list_set a j v) -> x = v \/ In x a.
Proof.
  revert j. induction a as [ | y a IH]; intros [ | j]; simpl; try tauto.
  - intros [E | H]; auto.
  - intros [E | H]; auto. destruct (IH _ H); auto.
Qed.

Lemma setitem_in_range (a : list R) (k : Z) (v : R) :
  (0 <= k < Z.of_nat (length a))%Z ->
  setitem a k v = Ok (list_set a (Z.to_nat k) v).
Proof.
  intros H. unfold setitem. rewrite norm_index_in_range by exact H. reflexivity.
Qed.

Lemma setitem_length (a b : list R) (k : Z) (v : R) :
  setitem a k v = Ok b -> length b = length a.
Proof.
  unfold setitem. intros E. apply bind_Ok in E. destruct E as (j & _ & E).
  inversion E. apply list_set_length.
Qed.

Lemma setitem_In (a b : list R) (k : Z) (v x : R) :
  setitem a k v = Ok b -> In x b -> x = v \/ In x a.
Proof.
  unfold setitem. intros E. apply bind_Ok in E. destruct E as (j & _ & E).
  inversion E. apply list_set_In.
Qed.

(** A property kept by every iteration holds when the loop ends. *)
Lemma for_each_invariant {A S : Type} (P : S -> Prop) (body : A -> S -> result S)
    (xs : list A) :
  (forall x s s', In x xs -> P s -> body x s = Ok s' -> P s') ->
  forall s s', P s -> for_each xs body s = Ok s' -> P s'.
Proof.
  induction xs as [ | x xs IH]; intros Hbody s s' Hs E; simpl in E.
  - inversion E; subst; exact Hs.
  - apply bind_Ok in E. destruct E as (s1 & E1 & E).
    apply (IH (fun y t t' Hy => Hbody y t t' (or_intror Hy)) s1 s'); [ | exact E].
    apply (Hbody x s s1); [left; reflexivity | exact Hs | exact E1].
Qed.

(** A loop whose iterations all return under an invariant returns. *)
Lemma for_each_returns {A S : Type} (P : S -> Prop) (body : A -> S -> result S)
    (xs : list A) :
  (forall x s, In x xs -> P s -> exists s', body x s = Ok s' /\ P s') ->
  forall s, P s -> exists s', for_each xs body s = Ok s' /\ P s'.
Proof.
  induction xs as [ | x xs IH]; intros Hbody s Hs; simpl.
  - exists s; split; [reflexivity | exact Hs].
  - destruct (Hbody x s (or_introl eq_refl) Hs) as (s1 & E1 & Hs1).
    rewrite E1; simpl.
    apply IH; [ | exact Hs1].
    intros y t Hy; apply Hbody; right; exact Hy.
Qed.

Lemma in_range (n i : Z) : In i (range n) -> (0 <= i < n)%Z.
Proof.
  unfold range. rewrite in_map_iff. intros (k & E & Hk).
  apply in_seq in Hk. lia.
Qed.

(** ** Sums *)

Lemma Rsum_div (a : list R) (t : R) :
  Rsum (List.map (fun w => w / t) a) = Rsum a / t.
Proof.
  induction a as [ | x a IH]; simpl.
  - unfold Rdiv; lra.
  - fold (Rsum (List.map (fun w => w / t) a)). rewrite IH. fold (Rsum a).
    unfold Rdiv; lra.
Qed.

Lemma Rsum_scaled_ones (q : R) (n : nat) :
  Rsum (List.map (fun o => q * o) (repeat 1 n)) = INR n * q.
Proof.
  induction n as [ | n IH].
  - simpl; lra.
  - rewrite S_INR. simpl. fold (Rsum (List.map (fun o => q * o) (repeat 1 n))).
    rewrite IH. lra.
Qed.

Lemma scaled_ones_all (q : R) (n : nat) (x : R) :
  In x (List.map (fun o => q * o) (repeat 1 n)) -> x = q.
Proof.
  rewrite in_map_iff. intros (o & E & Ho). apply repeat_spec in Ho. subst. lra.
Qed.

(** ** The store *)

Lemma upd_same {A : Type} (f : ref -> A) (r : ref) (a : A) : upd f r a r = a.
Proof. unfold upd. rewrite Nat.eqb_refl. reflexivity. Qed.

Lemma upd_other {A : Type} (f : ref -> A) (r r' : ref) (a : A) :
  r' <> r -> upd f r a r' = f r'.
Proof.
  intros H. unfold upd. destruct (Nat.eqb_spec r' r); [contradiction | reflexivity].
Qed.

(** ** [__init__] *)

Lemma take_length (rnd : nat -> R) (off n : nat) : length (take rnd off n) = n.
Proof. unfold take. rewrite length_map, length_seq. reflexivity. Qed.

Lemma init_returns (rm : list line) (n : Z) (ols oas mrn man x y t : R)
    (rnd : nat -> R) (h : heap) :
  rm <> [] -> (0 < n)%Z ->
  exists h' s,
    init rm n ols oas mrn man x y t rnd h = Ok (h', s) /\
    room_map s = rm /\ num s = n /\
    odom_lin_sigma s = ols /\ odom_ang_sigma s = oas /\
    meas_rng_noise s = mrn /\ meas_ang_noise s = man /\
    p_wei s = next h /\ p_ang s = S (next h) /\ p_xy s = S (S (next h)) /\
    next h' = S (S (S (next h))) /\
    vec h' (p_wei s) = List.map (fun o => 1 / IZR n * o) (repeat 1 (Z.to_nat n)) /\
    vec h' (p_ang s) = List.map (fun u => 2 * PI * u) (take rnd 0 (Z.to_nat n)) /\
    mat h' (p_xy s) =
      (List.map (fun u => x + 1 * u - 0.5) (take rnd (Z.to_nat n) (Z.to_nat n)),
       List.map (fun u => y + 1 * u - 0.5)
                (take rnd (Z.to_nat n + Z.to_nat n) (Z.to_nat n))).
Proof.
  intros Hrm Hn. unfold init.
  destruct rm as [ | l rm]; [contradiction | ]. simpl.
  unfold py_div, np_ones, draws.
  destruct (Z.eqb_spec n 0) as [E | _]; [lia | ].
  destruct (Z.ltb_spec n 0) as [E | _]; [lia | ]. simpl.
  eexists; eexists. split; [reflexivity | ]. simpl.
  repeat split; try reflexivity.
  - rewrite upd_other by lia. rewrite upd_same. reflexivity.
  - rewrite upd_same. reflexivity.
  - rewrite upd_same. reflexivity.
Qed.

Lemma init_well_formed (rm : list line) (n : Z) (ols oas mrn man x y t : R)
    (rnd : nat -> R) (h h' : heap) (s : ParticleFilter) :
  init rm n ols oas mrn man x y t rnd h = Ok (h', s) ->
  rm <> [] /\ (0 < n)%Z /\ well_formed s h'.
Proof.
  intros E.
  assert (Hrm : rm <> []).
  { intros ->. unfold init in E. simpl in E. discriminate. }
  assert (Hn : (0 < n)%Z).
  { destruct rm as [ | l rm]; [contradiction | ].
    unfold init in E. simpl in E. unfold py_div, np_ones in E.
    destruct (Z.eqb_spec n 0) as [E0 | E0]; [discriminate | ].
    destruct (Z.ltb_spec n 0) as [E1 | E1]; [discriminate | lia]. }
  split; [exact Hrm | ]. split; [exact Hn | ].
  destruct (init_returns rm n ols oas mrn man x y t rnd h Hrm Hn)
    as (h1 & s1 & E1 & Hm & Hnum & _ & _ & _ & _ & Hw & Ha & Hx & Hnx & Vw & Va & Vx).
  rewrite E1 in E. inversion E; subst h1 s1. clear E.
  unfold well_formed, particles.
  rewrite Hm, Hnum, Vw, Va, Vx, Hw, Ha, Hx, Hnx. simpl.
  rewrite !length_map, !take_length, repeat_length.
  repeat split; try lia; assumption.
Qed.

(** ** [weight] *)

Lemma only_weights_refl (s : ParticleFilter) (h : heap) : only_weights s h h.
Proof. unfold only_weights; auto. Qed.

Lemma only_weights_set (s : ParticleFilter) (h h1 : heap) (a : list R) :
  only_weights s h h1 ->
  length a = length (vec h1 (p_wei s)) ->
  only_weights s h (vec_set h1 (p_wei s) a).
Proof.
  intros (Hv & Hm & Hn & Hl) Ha. unfold only_weights, vec_set; simpl.
  repeat split; auto.
  - intros r Hr. rewrite upd_other by exact Hr. auto.
  - rewrite upd_same. congruence.
Qed.

Lemma gated_length (l : line) (ms : list line) (w : list R) :
  length (gated l ms w) = length w.
Proof.
  revert w. induction ms as [ | m ms IH]; intros [ | x w]; simpl; auto.
Qed.

Lemma zip_with_length (f : R -> R -> R) (a b : list R) :
  length (zip_with f a b) = Nat.min (length a) (length b).
Proof.
  revert b. induction a as [ | x a IH]; intros [ | y b]; simpl; auto.
Qed.

Lemma np_max_returns (a : list R) : a <> [] -> exists x, np_max a = Ok x.
Proof.
  destruct a as [ | x a]; [contradiction | ]. intros _. simpl. eauto.
Qed.

Section Weight.

Variable get_polar_line : line -> R * R * R -> R * R.
Variable default_odom : R * R * R.

Local Abbreviation weight_particle' := (weight_particle get_polar_line default_odom).
Local Abbreviation weight' := (weight get_polar_line default_odom).
Local Abbreviation likelihoods' := (likelihoods get_polar_line default_odom).

Lemma likelihoods_length (s : ParticleFilter) (odompass : R * R * R) (l : line) :
  length (likelihoods' s
            (List.map (fun map_j => get_polar_line map_j odompass) (room_map s)) l)
  = length (room_map s).
Proof.
  unfold likelihoods.
  rewrite zip_with_length, !gated_length, !length_map. apply Nat.min_id.
Qed.

(** One particle: the iteration returns and touches the weights only. *)
Lemma weight_particle_returns (s : ParticleFilter) (lines : list line) (i : Z)
    (h0 h : heap) :
  well_formed s h0 -> only_weights s h0 h -> (0 <= i < num s)%Z ->
  exists h', weight_particle' s lines i h = Ok h' /\ only_weights s h0 h'.
Proof.
  intros (Hmap & Hnum & (Lw & La & Lx & Ly) & Hne & _) Hfr Hi.
  pose proof Hfr as (Hv & Hm & Hn & Hl).
  unfold weight_particle.
  rewrite (Hm (p_xy s)), (Hv (p_ang s)) by auto.
  rewrite !getitem_in_range by lia. simpl.
  apply (for_each_returns (fun h1 => only_weights s h0 h1)); [ | exact Hfr].
  intros l h1 _ Hfr1. pose proof Hfr1 as (_ & _ & _ & Hl1).
  rewrite getitem_in_range by lia. simpl.
  match goal with
  | |- context [np_max ?a] => destruct (np_max_returns a) as (best & ->)
  end.
  { intros E. apply (f_equal (@length R)) in E.
    change (length (likelihoods' s
       (List.map (fun map_j => get_polar_line map_j
          (nth (Z.to_nat i) (fst (mat h0 (p_xy s))) 0,
           nth (Z.to_nat i) (snd (mat h0 (p_xy s))) 0,
           nth (Z.to_nat i) (vec h0 (p_ang s)) 0)) (room_map s)) l)
       = length (@nil R)) in E.
    rewrite likelihoods_length in E. simpl in E.
    destruct (room_map s); [contradiction | discriminate]. }
  simpl. rewrite setitem_in_range by lia. simpl.
  eexists; split; [reflexivity | ].
  apply only_weights_set; [exact Hfr1 | apply list_set_length].
Qed.

(** The loop over the particles returns on a well-formed filter. *)
Lemma weight_loop_returns (s : ParticleFilter) (lines : list line) (h : heap) :
  well_formed s h ->
  exists h1, for_each (range (num s)) (weight_particle' s lines) h = Ok h1 /\
             only_weights s h h1.
Proof.
  intros Hwf.
  apply (for_each_returns (fun h1 => only_weights s h h1));
    [ | apply only_weights_refl].
  intros i h1 Hi Hfr. apply in_range in Hi.
  apply weight_particle_returns; assumption.
Qed.

Lemma weight_after_loop (s : ParticleFilter) (lines : list line) (h h1 : heap) :
  for_each (range (num s)) (weight_particle' s lines) h = Ok h1 ->
  weight' s lines h = Ok (normalized s h1).
Proof.
  intros E. unfold weight.
  rewrite E. simpl.
  unfold normalized. rewrite upd_same. reflexivity.
Qed.

End Weight.

(** ** [predict] *)

Lemma broadcast_inplace_same_length (f : R -> R -> R) (a b : list R) :
  length a = length b -> broadcast_inplace f a b = Ok (zip_with f a b).
Proof.
  intros E. unfold broadcast_inplace. rewrite E, Nat.eqb_refl. reflexivity.
Qed.

Lemma zip_with_same_length (f : R -> R -> R) (a b : list R) :
  length a = length b -> length (zip_with f a b) = length a.
Proof. intros E. rewrite zip_with_length, E. apply Nat.min_id. Qed.

Section Predict.

Variable angle_wrap : R -> R.

Local Abbreviation predict' := (predict angle_wrap).

(** With a zero delta nothing but the flag changes. *)
Lemma predict_stationary (s : ParticleFilter) (odom : R * R * R)
    (gauss : nat -> R) (h : heap) :
  is_zero_odom odom = true -> predict' s odom gauss h = Ok (h, set_moving s false).
Proof.
  intros E. unfold predict. destruct odom as [[o0 o1] o2]. rewrite E. reflexivity.
Qed.

(** With a non-zero delta, on a well-formed filter: the call returns, the
    headings are the values of [angle_wrap], held by a new array, and the
    weights are untouched. *)
Lemma predict_moving (s : ParticleFilter) (odom : R * R * R)
    (gauss : nat -> R) (h : heap) :
  well_formed s h -> is_zero_odom odom = false ->
  exists h' s',
    predict' s odom gauss h = Ok (h', s') /\
    well_formed s' h' /\
    num s' = num s /\ room_map s' = room_map s /\ p_wei s' = p_wei s /\
    vec h' (p_wei s') = vec h (p_wei s) /\
    (exists moved, vec h' (p_ang s') = List.map angle_wrap moved) /\
    moving s' = true.
Proof.
  intros (Hmap & Hnum & (Lw & La & Lx & Ly) & Hne & Bw & Ba & Bx) Hz.
  unfold predict. destruct odom as [[o0 o1] o2]. rewrite Hz.
  set (n := Z.to_nat (num s)) in *.
  rewrite Lx.
  rewrite (broadcast_inplace_same_length Rplus
             (List.map (fun a => o0 * cos a - o1 * sin a) (vec h (p_ang s))))
    by (rewrite !length_map, take_length; exact La).
  simpl bind.
  rewrite (broadcast_inplace_same_length Rplus
             (List.map (fun a => o0 * sin a + o1 * cos a) (vec h (p_ang s))))
    by (rewrite !length_map, take_length; exact La).
  simpl bind.
  rewrite (broadcast_inplace_same_length Rplus (fst (mat h (p_xy s))))
    by (rewrite zip_with_same_length; rewrite !length_map, ?take_length; congruence).
  simpl bind. rewrite !upd_same. simpl fst. simpl snd.
  rewrite (broadcast_inplace_same_length Rplus (snd (mat h (p_xy s))))
    by (rewrite zip_with_same_length; rewrite !length_map, ?take_length; congruence).
  simpl bind.
  rewrite (broadcast_inplace_same_length Rplus (vec h (p_ang s)))
    by (rewrite !length_map, take_length; reflexivity).
  simpl.
  eexists; eexists. split; [reflexivity | ]. simpl.
  rewrite !upd_same.
  assert (Hlen : length (zip_with Rplus (vec h (p_ang s))
                   (List.map (fun g => o2 + odom_ang_sigma s * g)
                      (take gauss (n + n) (length (vec h (p_ang s)))))) = n).
  { rewrite zip_with_same_length by (rewrite !length_map, take_length; reflexivity).
    exact La. }
  split.
  - unfold well_formed, particles; simpl.
    rewrite !upd_same. simpl.
    rewrite (upd_other _ _ (p_wei s)) by lia.
    rewrite (upd_other _ _ (p_wei s)) by congruence.
    fold n. rewrite length_map, Hlen.
    rewrite !zip_with_same_length
      by (rewrite ?zip_with_same_length; rewrite !length_map, ?take_length; congruence).
    repeat split; try assumption; try lia.
  - repeat split; try reflexivity.
    + rewrite (upd_other _ _ (p_wei s)) by lia.
      rewrite (upd_other _ _ (p_wei s)) by congruence. reflexivity.
    + eexists; reflexivity.
Qed.

End Predict.

(** ** [resample] *)

Lemma advance_range (fuel : nat) (s : ParticleFilter) (h : heap) (u : R)
    (m : Z) (c : R) (m' : Z) (c' : R) :
  (1 <= num s)%Z -> (0 <= m < num s)%Z ->
  advance fuel s h u m c = Ok (m', c') -> (0 <= m' < num s)%Z.
Proof.
  intros Hnum. revert m c.
  induction fuel as [ | fuel IH]; intros m c Hm E; simpl in E;
    destruct (Rgt_dec u c) as [Hgt | Hle]; try discriminate;
    try (inversion E; subst; exact Hm).
  apply bind_Ok in E. destruct E as (w & _ & E).
  apply (IH _ _ (Z.mod_pos_bound (m + 1) (num s) ltac:(lia)) E).
Qed.

Lemma resample_step_inv (fuel : nat) (s : ParticleFilter) (h : heap) (r : R)
    (i : Z) (st st' : walk) :
  well_formed s h -> walk_inv s h st ->
  resample_step fuel s (p_xy s) (p_ang s) r i st = Ok st' ->
  walk_inv s h st'.
Proof.
  intros (Hmap & Hnum & _ & Hne & _) (Hm & Hw & La & Lx & Ly & Hn & Hin) E.
  unfold resample_step in E.
  apply bind_Ok in E. destruct E as ([m c] & Eadv & E).
  apply bind_Ok in E. destruct E as (a & Ea & E).
  apply bind_Ok in E. destruct E as (ang_arr & Eset & E).
  apply bind_Ok in E. destruct E as (x & Ex & E).
  apply bind_Ok in E. destruct E as (y & Ey & E).
  apply bind_Ok in E. destruct E as (row0 & E0 & E).
  apply bind_Ok in E. destruct E as (row1 & E1 & E).
  inversion E; subst st'; clear E. simpl in E0, E1.
  unfold walk_inv; simpl. rewrite !upd_same. simpl.
  rewrite upd_other by exact Hne.
  repeat split; auto.
  - eapply advance_range; eassumption.
  - eapply advance_range; eassumption.
  - rewrite (setitem_length _ _ _ _ Eset). exact La.
  - rewrite (setitem_length _ _ _ _ E0). exact Lx.
  - rewrite (setitem_length _ _ _ _ E1). exact Ly.
  - intros b Hb. destruct (setitem_In _ _ _ _ _ Eset Hb) as [-> | Hb'].
    + apply Hin. eapply getitem_Ok_In; eassumption.
    + apply Hin; exact Hb'.
Qed.

Lemma walk_inv_start (s : ParticleFilter) (h : heap) (c : R) :
  (1 <= num s)%Z -> walk_inv s h (Walk h 0 c []).
Proof. intros H. unfold walk_inv; simpl. repeat split; auto; lia. Qed.

(** What a call of [resample] that returns leaves behind. *)
Lemma resample_Ok (fuel : nat) (s s' : ParticleFilter) (v : R) (h h' : heap) :
  well_formed s h -> resample fuel s v h = Ok (h', s') ->
  well_formed s' h' /\
  num s' = num s /\ room_map s' = room_map s /\
  vec h' (p_wei s') =
    List.map (fun o => 1 / IZR (num s) * o) (repeat 1 (Z.to_nat (num s))) /\
  (forall a, In a (vec h' (p_ang s')) -> In a (vec h (p_ang s))).
Proof.
  intros Hwf E.
  pose proof Hwf as (Hmap & Hnum & (Lw & La & Lx & Ly) & Hne & Bw & Ba & Bx).
  unfold resample in E. apply bind_Ok in E. destruct E as ([[xy ang] st] & Ewalk & E).
  unfold resample_walk in Ewalk.
  apply bind_Ok in Ewalk. destruct Ewalk as (r & _ & Ewalk).
  apply bind_Ok in Ewalk. destruct Ewalk as (c & _ & Ewalk).
  apply bind_Ok in Ewalk. destruct Ewalk as (st1 & Eloop & Ewalk).
  inversion Ewalk; subst xy ang st1; clear Ewalk.
  assert (Hinv : walk_inv s h st).
  { revert Eloop. apply for_each_invariant; [ | apply walk_inv_start; exact Hnum].
    intros i t t' _ Ht. apply resample_step_inv; assumption. }
  destruct Hinv as (_ & Hw & La' & Lx' & Ly' & Hn & Hin).
  simpl in E. unfold py_div, np_ones in E.
  destruct (Z.eqb_spec (num s) 0) as [E0 | _]; [lia | ].
  destruct (Z.ltb_spec (num s) 0) as [E0 | _]; [lia | ].
  simpl in E. inversion E; subst h' s'; clear E. simpl.
  rewrite upd_same.
  assert (Hfresh : p_ang s <> next (w_heap st)) by lia.
  rewrite (upd_other _ _ (p_ang s)) by exact Hfresh.
  repeat split; try assumption; try reflexivity; simpl;
    rewrite ?upd_same, ?(upd_other _ _ (p_ang s)) by exact Hfresh;
    rewrite ?length_map, ?repeat_length; try lia; try congruence.
Qed.

(** *** Termination of the walk *)

Lemma Rsum_firstn_S (w : list R) (k : nat) :
  (k < length w)%nat -> Rsum (firstn (S k) w) = Rsum (firstn k w) + nth k w 0.
Proof.
  revert k. induction w as [ | x w IH]; intros k Hk; simpl in Hk; [lia | ].
  destruct k as [ | k].
  - simpl. lra.
  - change (firstn (S (S k)) (x :: w)) with (x :: firstn (S k) w).
    change (firstn (S k) (x :: w)) with (x :: firstn k w).
    change (nth (S k) (x :: w) 0) with (nth k w 0).
    change (Rsum (x :: firstn (S k) w)) with (x + Rsum (firstn (S k) w)).
    change (Rsum (x :: firstn k w)) with (x + Rsum (firstn k w)).
    rewrite IH by lia. lra.
Qed.

Lemma prefix_S (w : list R) (m : nat) :
  (S m < length w)%nat -> prefix w (S m) = prefix w m + nth (S m) w 0.
Proof. intros H. unfold prefix. apply Rsum_firstn_S. exact H. Qed.

Lemma prefix_0 (w : list R) : (0 < length w)%nat -> prefix w 0 = nth 0 w 0.
Proof.
  destruct w as [ | x w]; simpl; [lia | ]. intros _. unfold prefix; simpl. lra.
Qed.

Lemma prefix_last (w : list R) (m : nat) :
  S m = length w -> prefix w m = Rsum w.
Proof. intros E. unfold prefix. rewrite E, firstn_all. reflexivity. Qed.

Lemma nth_nonneg (w : list R) (k : nat) :
  Forall (fun x => 0 <= x) w -> 0 <= nth k w 0.
Proof.
  intros H. destruct (Nat.lt_ge_cases k (length w)) as [Hk | Hk].
  - rewrite Forall_forall in H. apply H, nth_In, Hk.
  - rewrite nth_overflow by exact Hk. lra.
Qed.

Lemma advance_returns (s : ParticleFilter) (h : heap) (u : R) :
  let w := vec h (p_wei s) in
  (1 <= num s)%Z -> length w = Z.to_nat (num s) ->
  Forall (fun x => 0 <= x) w -> Rsum w = 1 -> u < 1 ->
  forall (fuel : nat) (m : Z) (c : R),
    (0 <= m < num s)%Z ->
    1 <= c \/ (prefix w (Z.to_nat m) <= c + nth 0 w 0
               /\ (Z.to_nat (num s) - Z.to_nat m <= fuel)%nat) ->
    exists m' c',
      advance fuel s h u m c = Ok (m', c') /\
      (0 <= m' < num s)%Z /\ kept_up w m' c'.
Proof.
  intros w Hnum Hlen Hpos Hsum Hu.
  induction fuel as [ | fuel IH]; intros m c Hm Hk.
  - simpl. destruct (Rgt_dec u c) as [Hgt | Hle].
    + destruct Hk as [Hc | [_ Hf]]; [lra | lia].
    + exists m, c. unfold kept_up. repeat split; try lia. tauto.
  - simpl. destruct (Rgt_dec u c) as [Hgt | Hle].
    + destruct Hk as [Hc | [Hp Hf]]; [lra | ].
      fold w.
      assert (Hm1 : (0 <= (m + 1) mod num s < num s)%Z)
        by (apply Z.mod_pos_bound; lia).
      rewrite getitem_in_range by lia. simpl bind.
      apply IH; [exact Hm1 | ].
      destruct (Z.eq_dec (m + 1) (num s)) as [Ewrap | Hnowrap].
      * left. rewrite Ewrap, Z.mod_same by lia. simpl.
        rewrite (prefix_last w (Z.to_nat m)) in Hp by lia. lra.
      * right. rewrite Z.mod_small by lia.
        replace (Z.to_nat (m + 1)) with (S (Z.to_nat m)) by lia.
        rewrite prefix_S by lia. split; [lra | lia].
    + exists m, c. unfold kept_up. repeat split; try lia. tauto.
Qed.

(** The thresholds stay below the total weight. *)
Lemma threshold_lt_1 (n i : Z) (v : R) :
  (0 <= i < n)%Z -> 0 <= v < 1 ->
  v / (1 * IZR n) + (1 * IZR i) / (IZR n * 1) < 1.
Proof.
  intros Hi Hv.
  assert (Hn : 0 < IZR n) by (apply IZR_lt; lia).
  assert (Hin : IZR i <= IZR n - 1).
  { rewrite <- minus_IZR. apply IZR_le. lia. }
  replace (v / (1 * IZR n) + (1 * IZR i) / (IZR n * 1))
    with ((v + IZR i) / IZR n) by (field; lra).
  apply Rmult_lt_reg_r with (IZR n); [exact Hn | ].
  unfold Rdiv. rewrite Rmult_assoc, Rinv_l by lra. lra.
Qed.

Lemma resample_step_returns (fuel : nat) (s : ParticleFilter) (h : heap)
    (v : R) (i : Z) (st : walk) :
  let w := vec h (p_wei s) in
  well_formed s h -> (Z.to_nat (num s) <= fuel)%nat ->
  Forall (fun x => 0 <= x) w -> Rsum w = 1 -> 0 <= v < 1 ->
  (0 <= i < num s)%Z ->
  walk_inv s h st /\ kept_up w (w_m st) (w_c st) ->
  exists st',
    resample_step fuel s (p_xy s) (p_ang s) (v / (1 * IZR (num s))) i st = Ok st' /\
    walk_inv s h st' /\ kept_up w (w_m st') (w_c st').
Proof.
  intros w Hwf Hfuel Hpos Hsum Hv Hi (Hinv & Hk).
  pose proof Hwf as (Hmap & Hnum & (Lw & La & Lx & Ly) & Hne & Bw & Ba & Bx).
  pose proof Hinv as (Hm & Hw & La' & Lx' & Ly' & Hn & Hin).
  destruct (advance_returns s (w_heap st)
              (v / (1 * IZR (num s)) + (1 * IZR i) / (IZR (num s) * 1)))
    with (fuel := fuel) (m := w_m st) (c := w_c st)
    as (m' & c' & Eadv & Hm' & Hk'); try (rewrite Hw; assumption);
    try assumption.
  { apply threshold_lt_1; assumption. }
  { destruct Hk as [Hc | Hp]; [left; exact Hc | right].
    rewrite Hw. split; [exact Hp | lia]. }
  rewrite Hw in Hk'.
  assert (E : exists st', resample_step fuel s (p_xy s) (p_ang s)
                (v / (1 * IZR (num s))) i st = Ok st' /\ w_m st' = m' /\ w_c st' = c').
  { unfold resample_step. rewrite Eadv. simpl bind.
    rewrite (getitem_in_range (vec (w_heap st) (p_ang s))) by lia. simpl bind.
    rewrite setitem_in_range by lia. simpl bind. simpl mat.
    rewrite !getitem_in_range by lia. simpl bind.
    rewrite !setitem_in_range by lia. simpl bind.
    eexists. split; [reflexivity | ]. simpl. split; reflexivity. }
  destruct E as (st' & E & Em & Ec). exists st'.
  split; [exact E | ]. split.
  - eapply resample_step_inv; eassumption.
  - rewrite Em, Ec. exact Hk'.
Qed.

(** On a well-formed filter with at least two particles whose weights are
    non-negative and sum to 1, [resample] returns, given as much fuel as
    there are particles. *)
Lemma resample_returns (fuel : nat) (s : ParticleFilter) (v : R) (h : heap) :
  let w := vec h (p_wei s) in
  well_formed s h -> (2 <= num s)%Z -> (Z.to_nat (num s) <= fuel)%nat ->
  Forall (fun x => 0 <= x) w -> Rsum w = 1 -> 0 <= v < 1 ->
  exists h' s', resample fuel s v h = Ok (h', s').
Proof.
  intros w Hwf Htwo Hfuel Hpos Hsum Hv.
  pose proof Hwf as (Hmap & Hnum & (Lw & La & Lx & Ly) & Hne & Bw & Ba & Bx).
  unfold resample, resample_walk, py_div, np_ones.
  destruct (Z.eqb_spec (num s) 0) as [E0 | _]; [lia | ].
  cbn [bind]. rewrite getitem_in_range by lia. cbn [bind].
  destruct (for_each_returns
              (fun st => walk_inv s h st /\ kept_up w (w_m st) (w_c st))
              (resample_step fuel s (p_xy s) (p_ang s) (v / (1 * IZR (num s))))
              (range (num s)))
    with (s := Walk h 0 (nth (Z.to_nat 1) (vec h (p_wei s)) 0) [])
    as (st & Eloop & _).
  - intros i st Hi Hst. apply in_range in Hi.
    apply resample_step_returns; assumption.
  - split; [apply walk_inv_start; exact Hnum | ].
    unfold kept_up. cbn [w_m w_c]. right. fold w.
    change (Z.to_nat 0) with 0%nat. rewrite prefix_0 by (unfold w; lia).
    pose proof (nth_nonneg w (Z.to_nat 1) Hpos). lra.
  - rewrite Eloop. simpl.
    destruct (Z.eqb_spec (num s) 0) as [E0 | _]; [lia | ].
    destruct (Z.ltb_spec (num s) 0) as [E0 | _]; [lia | ].
    simpl. eexists; eexists; reflexivity.
Qed.

(** ** [np.arctan2] on a point of the unit circle *)

Lemma cos_pos_range (t : R) :
  - PI < t <= PI -> 0 < cos t -> - (PI / 2) < t < PI / 2.
Proof.
  intros Ht Hc. pose proof PI_RGT_0 as Hpi. split.
  - destruct (Rlt_dec (- (PI / 2)) t) as [H | H]; [exact H | exfalso].
    assert (Hn : cos (- t) <= 0) by (apply cos_le_0; lra).
    rewrite cos_neg in Hn. lra.
  - destruct (Rlt_dec t (PI / 2)) as [H | H]; [exact H | exfalso].
    assert (Hn : cos t <= 0) by (apply cos_le_0; lra). lra.
Qed.

Lemma arctan2_sin_cos (t : R) :
  - PI < t <= PI -> arctan2 (sin t) (cos t) = t.
Proof.
  intros Ht. pose proof PI_RGT_0 as Hpi. unfold arctan2.
  destruct (Rlt_dec 0 (cos t)) as [Hpos | Hnpos].
  - fold (tan t). apply atan_tan. apply cos_pos_range; assumption.
  - destruct (Rlt_dec (cos t) 0) as [Hneg | Hnneg].
    + destruct (Rle_dec 0 (sin t)) as [Hs | Hs].
      * (* second quadrant *)
        assert (H0 : 0 <= t).
        { destruct (Rle_dec 0 t) as [H | H]; [exact H | exfalso].
          pose proof (sin_lt_0_var t ltac:(lra) ltac:(lra)). lra. }
        assert (H1 : PI / 2 < t).
        { destruct (Rlt_dec (PI / 2) t) as [H | H]; [exact H | exfalso].
          pose proof (cos_ge_0 t ltac:(lra) ltac:(lra)). lra. }
        replace (sin t / cos t) with (tan (t - PI)).
        { rewrite atan_tan by lra. lra. }
        unfold tan. replace t with ((t - PI) + PI) at 3 4 by lra.
        rewrite neg_sin, neg_cos.
        assert (Hc : cos (t - PI) <> 0).
        { intros E. replace t with ((t - PI) + PI) in Hneg by lra.
          rewrite neg_cos, E in Hneg. lra. }
        field. exact Hc.
      * (* third quadrant *)
        assert (H0 : t < 0).
        { destruct (Rlt_dec t 0) as [H | H]; [exact H | exfalso].
          pose proof (sin_ge_0 t ltac:(lra) ltac:(lra)). lra. }
        assert (H1 : t < - (PI / 2)).
        { destruct (Rlt_dec t (- (PI / 2))) as [H | H]; [exact H | exfalso].
          pose proof (cos_ge_0 t ltac:(lra) ltac:(lra)). lra. }
        replace (sin t / cos t) with (tan (t + PI)).
        { rewrite atan_tan by lra. lra. }
        unfold tan. rewrite neg_sin, neg_cos.
        assert (Hc : cos t <> 0) by lra.
        field. exact Hc.
    + (* on the vertical axis *)
      assert (Hc : cos t = 0) by lra.
      assert (Hcases : t = PI / 2 \/ t = - (PI / 2)).
      { destruct (Rlt_dec 0 t) as [Hp | Hn].
        - left. destruct (Rlt_dec t (PI / 2)) as [H | H].
          + pose proof (cos_gt_0 t ltac:(lra) H). lra.
          + destruct (Rlt_dec (PI / 2) t) as [H' | H']; [ | lra].
            pose proof (cos_lt_0 t H' ltac:(lra)). lra.
        - right. destruct (Rlt_dec (- (PI / 2)) t) as [H | H].
          + pose proof (cos_gt_0 t H ltac:(lra)). lra.
          + destruct (Rlt_dec t (- (PI / 2))) as [H' | H']; [ | lra].
            pose proof (cos_lt_0 (- t) ltac:(lra) ltac:(lra)) as Hx.
            rewrite cos_neg in Hx. lra. }
      destruct Hcases as [-> | ->].
      * rewrite sin_PI2. decide_order.
      * rewrite sin_neg, sin_PI2. decide_order.
Qed.

(** ** Weighted sums with a single non-zero weight *)

Lemma dot_zero (w xs : list R) :
  (forall j, (j < length w)%nat -> nth j w 0 = 0) ->
  Rsum (zip_with Rmult w xs) = 0.
Proof.
  revert xs. induction w as [ | a w IH]; intros [ | x xs] H; simpl; try reflexivity.
  fold (Rsum (zip_with Rmult w xs)).
  rewrite IH by (intros j Hj; apply (H (S j)); simpl; lia).
  pose proof (H 0%nat ltac:(simpl; lia)) as Ha. simpl in Ha. rewrite Ha. lra.
Qed.

Lemma sum_zero (w : list R) :
  (forall j, (j < length w)%nat -> nth j w 0 = 0) -> Rsum w = 0.
Proof.
  induction w as [ | a w IH]; intros H; simpl; [reflexivity | ].
  fold (Rsum w). rewrite IH by (intros j Hj; apply (H (S j)); simpl; lia).
  pose proof (H 0%nat ltac:(simpl; lia)) as Ha. simpl in Ha. rewrite Ha. lra.
Qed.

Lemma one_hot_tail (a : R) (w : list R) (k : nat) :
  one_hot (a :: w) (S k) -> a = 0 /\ one_hot w k.
Proof.
  intros [Hk H]. simpl in Hk. split.
  - apply (H 0%nat). simpl; lia.
  - split; [lia | ]. intros j Hj. apply (H (S j)). simpl; lia.
Qed.

Lemma one_hot_head (a : R) (w : list R) :
  one_hot (a :: w) 0 ->
  a = 1 /\ forall j, (j < length w)%nat -> nth j w 0 = 0.
Proof.
  intros [_ H]. split.
  - apply (H 0%nat). simpl; lia.
  - intros j Hj. apply (H (S j)). simpl; lia.
Qed.

Lemma dot_one_hot (w : list R) (k : nat) (xs : list R) :
  one_hot w k -> length xs = length w ->
  Rsum (zip_with Rmult w xs) = nth k xs 0.
Proof.
  revert k xs. induction w as [ | a w IH]; intros k [ | x xs] Hw Hl;
    simpl in Hl; try discriminate.
  - destruct Hw as [Hk _]. simpl in Hk. lia.
  - simpl. fold (Rsum (zip_with Rmult w xs)). destruct k as [ | k].
    + destruct (one_hot_head _ _ Hw) as [-> Hz]. rewrite dot_zero by exact Hz. lra.
    + destruct (one_hot_tail _ _ _ Hw) as [-> Hw']. rewrite (IH k) by (auto; lia). lra.
Qed.

Lemma sum_one_hot (w : list R) (k : nat) : one_hot w k -> Rsum w = 1.
Proof.
  revert k. induction w as [ | a w IH]; intros k Hw.
  - destruct Hw as [Hk _]. simpl in Hk. lia.
  - simpl. fold (Rsum w). destruct k as [ | k].
    + destruct (one_hot_head _ _ Hw) as [-> Hz]. rewrite sum_zero by exact Hz. lra.
    + destruct (one_hot_tail _ _ _ Hw) as [-> Hw']. rewrite (IH k) by exact Hw'. lra.
Qed.

Lemma zip_with_Rmult_comm (a b : list R) :
  zip_with Rmult a b = zip_with Rmult b a.
Proof.
  revert b. induction a as [ | x a IH]; intros [ | y b]; simpl; try reflexivity.
  rewrite IH. f_equal. apply Rmult_comm.
Qed.

Lemma broadcast_same_length (f : R -> R -> R) (a b : list R) :
  length a = length b -> broadcast f a b = Ok (zip_with f a b).
Proof. intros E. unfold broadcast. rewrite E, Nat.eqb_refl. reflexivity. Qed.

Lemma nth_map_in_range (f : R -> R) (a : list R) (k : nat) :
  (k < length a)%nat -> nth k (List.map f a) 0 = f (nth k a 0).
Proof.
  intros H. rewrite (nth_indep _ 0 (f 0)) by (rewrite length_map; exact H).
  apply map_nth.
Qed.

(** ** [get_mean_particle] with a single non-zero weight *)
Lemma mean_of_one_hot (s : ParticleFilter) (h : heap) (n k : nat) :
  particles n s h -> one_hot (vec h (p_wei s)) k ->
  get_mean_particle s h =
    Ok (nth k (fst (mat h (p_xy s))) 0,
        nth k (snd (mat h (p_xy s))) 0,
        arctan2 (sin (nth k (vec h (p_ang s)) 0)) (cos (nth k (vec h (p_ang s)) 0))).
Proof.
  intros (Lw & La & Lx & Ly) Hw. pose proof Hw as [Hk _].
  unfold get_mean_particle.
  rewrite !broadcast_same_length by (rewrite ?length_map; congruence).
  simpl.
  rewrite (zip_with_Rmult_comm (fst (mat h (p_xy s)))).
  rewrite (zip_with_Rmult_comm (snd (mat h (p_xy s)))).
  rewrite !(dot_one_hot _ k) by (rewrite ?length_map; auto; congruence).
  rewrite (sum_one_hot _ k Hw), !Rdiv_1_r.
  rewrite !nth_map_in_range by congruence.
  reflexivity.
Qed.

(** ** The imported helpers and the example filter *)

Lemma angle_wrap_model_wrapped (a : R) : wrapped (angle_wrap_model a).
Proof.
  unfold wrapped, angle_wrap_model. pose proof PI_RGT_0 as Hpi.
  destruct (archimed ((PI - a) / (2 * PI))) as [Hup Hlo].
  rewrite minus_IZR.
  set (k := IZR (up ((PI - a) / (2 * PI)))) in *.
  assert (E : (PI - a) / (2 * PI) * (2 * PI) = PI - a) by (field; lra).
  assert (H1 : PI - a < k * (2 * PI)).
  { rewrite <- E. apply Rmult_lt_compat_r; lra. }
  assert (H2 : k * (2 * PI) <= PI - a + 2 * PI).
  { rewrite <- E at 1.
    replace ((PI - a) / (2 * PI) * (2 * PI) + 2 * PI)
      with (((PI - a) / (2 * PI) + 1) * (2 * PI)) by ring.
    apply Rmult_le_compat_r; lra. }
  split; lra.
Qed.

Lemma example_well_formed : well_formed example_filter example_heap.
Proof.
  unfold well_formed, particles; simpl.
  repeat split; try lia; discriminate.
Qed.

Lemma PI_gt_3 : 3 < PI.
Proof. pose proof PI2_3_2. lra. Qed.

(** * The claims *)

(** ** The likelihood of a pair of lines *)

(** The range factor is the density of scale [meas_rng_noise]. *)
Lemma wr_gaussian (s : ParticleFilter) (meas room_k : R * R) :
  wr s meas room_k = gaussian_density (meas_rng_noise s) (fst meas - fst room_k).
Proof. reflexivity. Qed.

Lemma sqrt_2PI_pos : 0 < sqrt (2 * PI).
Proof. apply sqrt_lt_R0. pose proof PI_RGT_0. lra. Qed.

(** The bearing factor is not the density of scale [meas_ang_noise] as
    soon as the two noises and the two bearings differ. *)
Lemma wt_not_gaussian (s : ParticleFilter) (meas room_k : R * R) :
  0 < meas_rng_noise s -> 0 < meas_ang_noise s ->
  meas_rng_noise s <> meas_ang_noise s -> snd meas <> snd room_k ->
  wt s meas room_k <> gaussian_density (meas_ang_noise s) (snd meas - snd room_k).
Proof.
  intros Hr Ha Hne Hd E. unfold wt, gaussian_density, val_ang in E.
  set (d := snd meas - snd room_k) in *.
  set (sr := meas_rng_noise s) in *. set (sa := meas_ang_noise s) in *.
  pose proof sqrt_2PI_pos as Hq.
  assert (Hv : 1 / (sa * sqrt (2 * PI)) <> 0).
  { apply Rgt_not_eq. apply Rdiv_lt_0_compat; [lra | ].
    apply Rmult_lt_0_compat; assumption. }
  apply Rmult_eq_reg_l in E; [ | exact Hv].
  apply exp_inv in E. unfold Rdiv in E.
  assert (Hd2 : - d ^ 2 <> 0).
  { assert (d <> 0) by (unfold d; lra).
    assert (0 < d * d) by (apply Rsqr_pos_lt; assumption).
    simpl. lra. }
  apply Rmult_eq_reg_l in E; [ | exact Hd2].
  apply Rinv_eq_reg in E.
  destruct (Rtotal_order sr sa) as [Hlt | [Heq | Hgt]]; [nra | contradiction | nra].
Qed.

(** C1 (the code departs from the claim).  The range factor computed in
    [weight] is the Gaussian density of scale [meas_rng_noise].  The
    bearing factor is not the density of scale [meas_ang_noise]: with
    range noise 1, bearing noise 2 and two bearings 1 radian apart it is
    exp(-1/2) / (2 sqrt(2 pi)), its coefficient having the bearing noise
    and its exponent the range noise, whereas the density of scale
    [meas_ang_noise] is exp(-1/8) / (2 sqrt(2 pi)). *)
Theorem bearing_factor_scale :
  (forall s meas room_k,
      wr s meas room_k
        = gaussian_density (meas_rng_noise s) (fst meas - fst room_k)) /\
  wt example_filter (0, 1) (0, 0) = 1 / (2 * sqrt (2 * PI)) * exp (- (1 / 2)) /\
  gaussian_density (meas_ang_noise example_filter) (1 - 0)
    = 1 / (2 * sqrt (2 * PI)) * exp (- (1 / 8)) /\
  wt example_filter (0, 1) (0, 0)
    <> gaussian_density (meas_ang_noise example_filter) (1 - 0).
Proof.
  split; [ | split; [ | split]].
  - intros s meas room_k. apply wr_gaussian.
  - unfold wt, val_ang. simpl. f_equal. f_equal. field.
  - unfold gaussian_density. simpl. f_equal. f_equal. field.
  - apply (wt_not_gaussian example_filter (0, 1) (0, 0)); simpl; lra.
Qed.

(** ** Construction *)

(** C8 (counterexample).  With a map of one segment and one particle,
    construction succeeds although the four noise parameters are zero or
    negative, and stores them. *)
Lemma init_accepts_nonpositive_noise :
  exists h s,
    init [(0, 0, 1, 0)] 1 0 (- 1) 0 (- 1) 0 0 0 (fun _ => 0) empty_heap = Ok (h, s) /\
    odom_lin_sigma s = 0 /\ odom_ang_sigma s = - 1 /\
    meas_rng_noise s = 0 /\ meas_ang_noise s = - 1.
Proof.
  eexists; eexists. split; [reflexivity | ]. simpl. repeat split; reflexivity.
Qed.

(** C8 (as amended).  Construction fails on an empty map ([np.min] raises
    ValueError) and on a particle count that is zero (ZeroDivisionError) or
    negative (ValueError); there is no error of its own for these cases,
    and the noise parameters are not examined: with a non-empty map and a
    positive count construction succeeds and stores them as given. *)
Theorem init_outcomes (rm : list line) (n : Z) (ols oas mrn man x y t : R)
    (rnd : nat -> R) (h : heap) :
  (rm = [] -> init rm n ols oas mrn man x y t rnd h = Raise ValueError) /\
  (rm <> [] -> n = 0%Z ->
   init rm n ols oas mrn man x y t rnd h = Raise ZeroDivisionError) /\
  (rm <> [] -> (n < 0)%Z ->
   init rm n ols oas mrn man x y t rnd h = Raise ValueError) /\
  (rm <> [] -> (0 < n)%Z ->
   exists h' s,
     init rm n ols oas mrn man x y t rnd h = Ok (h', s) /\
     room_map s = rm /\ num s = n /\
     odom_lin_sigma s = ols /\ odom_ang_sigma s = oas /\
     meas_rng_noise s = mrn /\ meas_ang_noise s = man).
Proof.
  split; [ | split; [ | split]].
  - intros ->. reflexivity.
  - intros Hrm ->. destruct rm as [ | l rm]; [contradiction | ]. reflexivity.
  - intros Hrm Hn. destruct rm as [ | l rm]; [contradiction | ].
    unfold init. simpl. unfold py_div, np_ones.
    destruct (Z.eqb_spec n 0) as [E | _]; [lia | ].
    destruct (Z.ltb_spec n 0) as [_ | E]; [reflexivity | lia].
  - intros Hrm Hn.
    destruct (init_returns rm n ols oas mrn man x y t rnd h Hrm Hn)
      as (h' & s & E & H1 & H2 & H3 & H4 & H5 & H6 & _).
    exists h', s. repeat split; assumption.
Qed.

(** ** What [weight] changes and reports *)

Arguments seg_len : simpl never.

Lemma map_segment_shorter : seg_len (0, 0, 1, 0) < seg_len long_line.
Proof.
  unfold seg_len, long_line; simpl. apply sqrt_lt_1; lra.
Qed.

Section WeightClaims.

Variable get_polar_line : line -> R * R * R -> R * R.
Variable default_odom : R * R * R.

Local Abbreviation weight_particle' := (weight_particle get_polar_line default_odom).
Local Abbreviation weight' := (weight get_polar_line default_odom).

(** On the example filter, observing [long_line] leaves every raw weight
    at zero. *)
Lemma example_raw_weights :
  exists h1,
    for_each (range (num example_filter))
      (weight_particle' example_filter [long_line]) example_heap = Ok h1 /\
    Rsum (vec h1 (p_wei example_filter)) = 0.
Proof.
  pose proof map_segment_shorter as Hlen.
  unfold weight_particle, likelihoods. simpl.
  destruct (Rlt_dec (seg_len (0, 0, 1, 0)) (seg_len long_line)) as [_ | Hn];
    [ | contradiction].
  simpl. eexists. split; [reflexivity | ]. simpl. lra.
Qed.

(** The effect of [weight] on a well-formed filter: the loop returns raw
    weights, the call returns their normalization, and nothing but the
    weight array and [n_eff] differs. *)
Lemma weight_effect (s : ParticleFilter) (lines : list line) (h : heap) :
  well_formed s h ->
  exists h1 h' s',
    for_each (range (num s)) (weight_particle' s lines) h = Ok h1 /\
    weight' s lines h = Ok (h', s') /\
    (h', s') = normalized s h1 /\
    only_weights s h h' /\
    well_formed s' h'.
Proof.
  intros Hwf.
  destruct (weight_loop_returns get_polar_line default_odom s lines h Hwf)
    as (h1 & Eloop & Hfr).
  exists h1. eexists; eexists.
  split; [exact Eloop | ].
  split; [apply weight_after_loop; exact Eloop | ].
  split; [reflexivity | ].
  assert (Hfr' : only_weights s h
            (vec_set h1 (p_wei s)
               (List.map (fun w => w / Rsum (vec h1 (p_wei s))) (vec h1 (p_wei s))))).
  { apply only_weights_set; [exact Hfr | apply length_map]. }
  split; [exact Hfr' | ].
  destruct Hwf as (Hmap & Hnum & (Lw & La & Lx & Ly) & Hne & Bw & Ba & Bx).
  destruct Hfr' as (Hv & Hm & Hn & Hl).
  unfold well_formed, particles. simpl num. simpl room_map.
  simpl p_wei. simpl p_ang. simpl p_xy.
  rewrite Hn, (Hm (p_xy s)), (Hv (p_ang s)), Hl by auto.
  repeat split; assumption.
Qed.

(** C3 (as amended).  On every well-formed filter and for every
    observation [weight] returns normally, and each stored weight is the
    raw weight divided by the raw sum, whatever that sum is: there is no
    test of the sum and no error for a zero sum. *)
Theorem weight_divides_unchecked (s : ParticleFilter) (lines : list line)
    (h : heap) :
  well_formed s h ->
  exists h1 h' s',
    for_each (range (num s)) (weight_particle' s lines) h = Ok h1 /\
    weight' s lines h = Ok (h', s') /\
    vec h' (p_wei s') =
      List.map (fun w => w / Rsum (vec h1 (p_wei s))) (vec h1 (p_wei s)).
Proof.
  intros Hwf.
  destruct (weight_effect s lines h Hwf) as (h1 & h' & s' & Eloop & E & En & _).
  exists h1, h', s'. split; [exact Eloop | ]. split; [exact E | ].
  unfold normalized in En. inversion En; subst h' s'. simpl.
  apply upd_same.
Qed.

(** C10.  On every well-formed filter and for every non-empty observation
    [weight] returns, and the positions, the headings, the particle count
    and the map are as before: only the contents of the weight array and
    [n_eff] may differ. *)
Theorem weight_frame (s : ParticleFilter) (lines : list line) (h : heap) :
  well_formed s h -> lines <> [] ->
  exists h' s',
    weight' s lines h = Ok (h', s') /\
    mat h' (p_xy s') = mat h (p_xy s) /\
    vec h' (p_ang s') = vec h (p_ang s) /\
    num s' = num s /\
    room_map s' = room_map s /\
    length (vec h' (p_wei s')) = length (vec h (p_wei s)) /\
    s' = set_n_eff s (n_eff s') /\
    (forall r, r <> p_wei s -> vec h' r = vec h r) /\
    (forall r, mat h' r = mat h r).
Proof.
  intros Hwf _.
  destruct (weight_effect s lines h Hwf)
    as (h1 & h' & s' & _ & E & En & (Hv & Hm & Hn & Hl) & _).
  exists h', s'. split; [exact E | ].
  assert (Hs : s' = set_n_eff s (n_eff s')).
  { unfold normalized in En. inversion En. reflexivity. }
  destruct Hwf as (_ & _ & _ & Hne & _).
  rewrite Hs. simpl.
  repeat split; auto.
Qed.

(** An iteration that changes nothing, repeated, changes nothing. *)
Lemma for_each_idle {A S : Type} (body : A -> S -> result S) (xs : list A) (s : S) :
  (forall x, In x xs -> body x s = Ok s) -> for_each xs body s = Ok s.
Proof.
  induction xs as [ | x xs IH]; intros H; simpl; [reflexivity | ].
  rewrite (H x (or_introl eq_refl)). simpl. apply IH.
  intros y Hy. apply H. right. exact Hy.
Qed.

Lemma weight_loop_empty (s : ParticleFilter) (h : heap) :
  well_formed s h ->
  for_each (range (num s)) (weight_particle' s []) h = Ok h.
Proof.
  intros (_ & _ & (Lw & La & Lx & Ly) & _).
  apply for_each_idle. intros i Hi. apply in_range in Hi.
  unfold weight_particle. rewrite !getitem_in_range by lia. reflexivity.
Qed.

(** C7 (as amended).  With an empty observation [weight] still
    normalizes: it returns, every weight has been divided by the sum of
    the weights and [n_eff] recomputed; when the weights sum to 1 every
    weight is left unchanged.  Positions and headings are untouched. *)
Theorem weight_empty_observation (s : ParticleFilter) (h : heap) :
  well_formed s h ->
  exists h' s',
    weight' s [] h = Ok (h', s') /\
    p_wei s' = p_wei s /\
    vec h' (p_wei s') =
      List.map (fun w => w / Rsum (vec h (p_wei s))) (vec h (p_wei s)) /\
    n_eff s' = 1 / Rsum (zip_with Rmult (vec h' (p_wei s')) (vec h' (p_wei s'))) /\
    (Rsum (vec h (p_wei s)) = 1 -> vec h' (p_wei s') = vec h (p_wei s)) /\
    (forall r, r <> p_wei s -> vec h' r = vec h r) /\
    (forall r, mat h' r = mat h r).
Proof.
  intros Hwf.
  pose proof (weight_after_loop get_polar_line default_odom s [] h h
                (weight_loop_empty s h Hwf)) as E.
  eexists; eexists. split; [exact E | ]. simpl.
  rewrite upd_same.
  repeat split; try reflexivity.
  - intros Hsum. rewrite Hsum.
    rewrite (map_ext _ (fun w => w) Rdiv_1_r). apply map_id.
  - intros r Hr. apply upd_other. exact Hr.
Qed.

End WeightClaims.

(** C3 (counterexample).  The example filter observes a segment longer
    than its only map segment: every raw weight is zero, the raw sum is
    zero, and [weight] returns normally all the same. *)
Lemma zero_sum_not_reported :
  exists h1 h' s',
    for_each (range (num example_filter))
      (weight_particle get_polar_line_model origin example_filter [long_line])
      example_heap = Ok h1 /\
    Rsum (vec h1 (p_wei example_filter)) = 0 /\
    weight get_polar_line_model origin example_filter [long_line] example_heap
      = Ok (h', s').
Proof.
  destruct (example_raw_weights get_polar_line_model origin) as (h1 & E & Hsum).
  exists h1. eexists; eexists. split; [exact E | ]. split; [exact Hsum | ].
  apply weight_after_loop. exact E.
Qed.

Lemma weight_divides_unchecked_witness :
  well_formed example_filter example_heap /\
  exists h1 h' s',
    for_each (range (num example_filter))
      (weight_particle get_polar_line_model origin example_filter [long_line])
      example_heap = Ok h1 /\
    weight get_polar_line_model origin example_filter [long_line] example_heap
      = Ok (h', s') /\
    vec h' (p_wei s') =
      List.map (fun w => w / Rsum (vec h1 (p_wei example_filter)))
               (vec h1 (p_wei example_filter)).
Proof.
  split; [exact example_well_formed | ].
  exact (weight_divides_unchecked get_polar_line_model origin example_filter
           [long_line] example_heap example_well_formed).
Defined.

Lemma weight_frame_witness :
  well_formed example_filter example_heap /\ [long_line] <> [] /\
  exists h' s',
    weight get_polar_line_model origin example_filter [long_line] example_heap
      = Ok (h', s') /\
    mat h' (p_xy s') = mat example_heap (p_xy example_filter) /\
    vec h' (p_ang s') = vec example_heap (p_ang example_filter) /\
    num s' = 3%Z /\
    room_map s' = [(0, 0, 1, 0)].
Proof.
  split; [exact example_well_formed | ]. split; [discriminate | ].
  destruct (weight_frame get_polar_line_model origin example_filter [long_line]
              example_heap example_well_formed ltac:(discriminate))
    as (h' & s' & E & Hxy & Hang & Hnum & Hmap & _).
  exists h', s'. repeat split; assumption.
Defined.

(** C7 (counterexample).  With an empty observation the call is not
    idle.  On the filter just constructed with two particles it changes
    [n_eff] from 0 to 2; on a filter whose weights are 1/2, 1/4, 1/8 it
    changes the first weight from 1/2 to 4/7. *)
Lemma empty_observation_not_idle :
  (exists h s h' s',
     init [(0, 0, 1, 0)] 2 1 1 1 1 0 0 0 (fun _ => 0) empty_heap = Ok (h, s) /\
     weight get_polar_line_model origin s [] h = Ok (h', s') /\
     n_eff s = 0 /\ n_eff s' = 2) /\
  (exists h' s',
     weight get_polar_line_model origin example_filter [] skewed_heap = Ok (h', s') /\
     nth 0 (vec skewed_heap (p_wei example_filter)) 0 = 1 / 2 /\
     nth 0 (vec h' (p_wei s')) 0 = 4 / 7).
Proof.
  split.
  - eexists; eexists; eexists; eexists.
    split; [reflexivity | ].
    split; [reflexivity | ].
    simpl. split; [reflexivity | field].
  - eexists; eexists.
    split; [reflexivity | ].
    simpl. split; [reflexivity | field].
Qed.

Lemma weight_empty_observation_witness :
  well_formed example_filter example_heap /\
  exists h' s',
    weight get_polar_line_model origin example_filter [] example_heap = Ok (h', s') /\
    vec h' (p_wei s') = [1 / 5; 1 / 2; 3 / 10].
Proof.
  split; [exact example_well_formed | ].
  destruct (weight_empty_observation get_polar_line_model origin example_filter
              example_heap example_well_formed)
    as (h' & s' & E & _ & _ & _ & Hsame & _).
  exists h', s'. split; [exact E | ].
  apply Hsame. simpl. lra.
Defined.

(** ** The indices selected by [resample] *)

(** The walk of [resample] over the example filter, for the draw 0.3
    (the offset [r] is 0.1): the pointers used are 0, 0, 1, and the
    arrays named [ang] and [xy], which are the filter's own, end with
    three copies of particle 0. *)
Lemma example_walk :
  exists st,
    resample_walk 3 example_filter (3 / 10) example_heap
      = Ok (p_xy example_filter, p_ang example_filter, st) /\
    picks st = [0; 0; 1]%Z /\
    vec (w_heap st) (p_ang example_filter) = [0; 0; 0] /\
    mat (w_heap st) (p_xy example_filter) = ([0; 0; 0], [0; 0; 0]) /\
    next (w_heap st) = 3%nat.
Proof.
  unfold resample_walk. simpl. unfold resample_step. simpl.
  repeat (decide_order; simpl).
  eexists. split; [reflexivity | ]. simpl. repeat split; reflexivity.
Qed.

(** C2 (the code departs from the claim).  For the weights 0.2, 0.5, 0.3
    and the offset 0.1 the rule of the claim, whose running sum starts at
    [weight[0]], selects the indices 0, 1, 2.  [resample] starts its sum at
    [p_wei[1]] and selects 0, 0, 1; with a single particle that first read
    is out of range and the call raises IndexError. *)
Theorem resample_selection :
  systematic_rule 3 (vec example_heap (p_wei example_filter)) (1 / 10)
    = Ok [0; 1; 2]%Z /\
  (exists st,
     resample_walk 3 example_filter (3 / 10) example_heap
       = Ok (p_xy example_filter, p_ang example_filter, st) /\
     picks st = [0; 0; 1]%Z) /\
  (exists h s,
     init [(0, 0, 1, 0)] 1 1 1 1 1 0 0 0 (fun _ => 0) empty_heap = Ok (h, s) /\
     forall fuel v, resample fuel s v h = Raise IndexError).
Proof.
  split; [ | split].
  - unfold systematic_rule. simpl.
    repeat (decide_order; simpl). reflexivity.
  - destruct example_walk as (st & E & Hp & _). exists st. split; assumption.
  - eexists; eexists. split; [reflexivity | ].
    intros fuel v. reflexivity.
Qed.

(** ** The storage written by [resample] *)

(** C4 (the code departs from the claim).  On the example filter, for
    the draw 0.3, draw 2 selects the source index 1, whose heading and
    ordinate before the call are both 1; after the call particle 2 has
    the heading 0 and the ordinate 0, the values that draw 1 had already
    written at index 1.  The arrays written are the arrays read: the
    filter's [p_ang] and [p_xy] are still the same objects. *)
Theorem resample_reads_overwritten :
  exists st h' s',
    resample_walk 3 example_filter (3 / 10) example_heap
      = Ok (p_xy example_filter, p_ang example_filter, st) /\
    nth 2 (picks st) 0%Z = 1%Z /\
    nth 1 (vec example_heap (p_ang example_filter)) 0 = 1 /\
    nth 1 (snd (mat example_heap (p_xy example_filter))) 0 = 1 /\
    resample 3 example_filter (3 / 10) example_heap = Ok (h', s') /\
    p_ang s' = p_ang example_filter /\
    p_xy s' = p_xy example_filter /\
    nth 2 (vec h' (p_ang s')) 0 = 0 /\
    nth 2 (snd (mat h' (p_xy s'))) 0 = 0.
Proof.
  destruct example_walk as (st & E & Hp & Hang & Hxy & Hn).
  exists st. unfold resample. rewrite E. simpl.
  eexists; eexists.
  split; [reflexivity | ].
  split; [rewrite Hp; reflexivity | ].
  split; [reflexivity | ].
  split; [reflexivity | ].
  split; [reflexivity | ]. simpl.
  rewrite Hn. unfold upd. simpl. simpl in Hang, Hxy. rewrite Hang, Hxy.
  repeat split; reflexivity.
Qed.

(** ** Reachable filters *)

Section Lifecycle.

Variable get_polar_line : line -> R * R * R -> R * R.
Variable default_odom : R * R * R.
Variable angle_wrap : R -> R.

Local Abbreviation weight_particle' := (weight_particle get_polar_line default_odom).
Local Abbreviation weight' := (weight get_polar_line default_odom).
Local Abbreviation predict' := (predict angle_wrap).
Local Abbreviation reachable' := (reachable get_polar_line default_odom angle_wrap).

Lemma predict_Ok (s s' : ParticleFilter) (odom : R * R * R) (gauss : nat -> R)
    (h h' : heap) :
  well_formed s h -> predict' s odom gauss h = Ok (h', s') ->
  well_formed s' h' /\ num s' = num s /\
  ((h', s') = (h, set_moving s false) \/
   exists moved, vec h' (p_ang s') = List.map angle_wrap moved).
Proof.
  intros Hwf E. destruct (is_zero_odom odom) eqn:Hz.
  - rewrite (predict_stationary angle_wrap s odom gauss h Hz) in E.
    inversion E; subst h' s'. split; [exact Hwf | ]. split; [reflexivity | ].
    left; reflexivity.
  - destruct (predict_moving angle_wrap s odom gauss h Hwf Hz)
      as (h1 & s1 & E1 & Hwf1 & Hnum & _ & _ & _ & Hmoved & _).
    rewrite E1 in E. inversion E; subst h1 s1.
    split; [exact Hwf1 | ]. split; [exact Hnum | ]. right; exact Hmoved.
Qed.

Lemma weight_Ok_effect (s s' : ParticleFilter) (lines : list line) (h h' : heap) :
  well_formed s h -> weight' s lines h = Ok (h', s') ->
  well_formed s' h' /\ num s' = num s /\ only_weights s h h' /\
  p_ang s' = p_ang s.
Proof.
  intros Hwf E.
  destruct (weight_effect get_polar_line default_odom s lines h Hwf)
    as (h1 & h2 & s2 & _ & E2 & En & Hfr & Hwf2).
  rewrite E2 in E. injection E as <- <-.
  assert (Hs : s2 = snd (normalized s h1)) by (rewrite <- En; reflexivity).
  split; [exact Hwf2 | ].
  split; [rewrite Hs; reflexivity | ].
  split; [exact Hfr | rewrite Hs; reflexivity].
Qed.

(** Every reachable filter is well formed and has the particle count
    given at construction. *)
Lemma reachable_well_formed (n : Z) (s : ParticleFilter) (h : heap) :
  reachable' n s h -> well_formed s h /\ num s = n.
Proof.
  induction 1 as [rm n ols oas mrn man x y t rnd h0 h s E
                 | n s s' h h' odom gauss _ [IH1 IH2] E
                 | n s s' h h' lines _ [IH1 IH2] E
                 | n s s' h h' fuel v _ [IH1 IH2] E].
  - destruct (init_well_formed _ _ _ _ _ _ _ _ _ _ _ _ _ E) as (Hrm & Hn & Hwf).
    split; [exact Hwf | ].
    destruct (init_returns rm n ols oas mrn man x y t rnd h0 Hrm Hn)
      as (h1 & s1 & E1 & _ & Hnum & _).
    rewrite E1 in E. injection E as <- <-. exact Hnum.
  - destruct (predict_Ok _ _ _ _ _ _ IH1 E) as (Hwf & Hnum & _).
    split; [exact Hwf | congruence].
  - destruct (weight_Ok_effect _ _ _ _ _ IH1 E) as (Hwf & Hnum & _).
    split; [exact Hwf | congruence].
  - destruct (resample_Ok _ _ _ _ _ _ IH1 E) as (Hwf & Hnum & _).
    split; [exact Hwf | congruence].
Qed.

(** C5.  Every reachable filter holds exactly the [n] particles given at
    construction, and so does the filter left by [weight] and [resample].
    [weight] returns, and when the raw weights do not sum to zero the
    weights it leaves sum to 1.  After a [resample] that returns every
    weight is [1/n] and the weights sum to 1; [resample] does return when
    there are at least two particles, the weights are non-negative and
    sum to 1 and the draw is in [0, 1). *)
Theorem particle_count_and_weight_sum (n : Z) (s : ParticleFilter) (h : heap) :
  reachable' n s h ->
  (1 <= n)%Z /\ num s = n /\ particles (Z.to_nat n) s h /\
  (forall lines, exists h1 h' s',
      for_each (range (num s)) (weight_particle' s lines) h = Ok h1 /\
      weight' s lines h = Ok (h', s') /\
      particles (Z.to_nat n) s' h' /\
      (Rsum (vec h1 (p_wei s)) <> 0 -> Rsum (vec h' (p_wei s')) = 1)) /\
  (forall fuel v h' s',
      resample fuel s v h = Ok (h', s') ->
      particles (Z.to_nat n) s' h' /\
      Forall (fun w => w = 1 / IZR n) (vec h' (p_wei s')) /\
      Rsum (vec h' (p_wei s')) = 1) /\
  (forall v,
      (2 <= n)%Z -> Forall (fun x => 0 <= x) (vec h (p_wei s)) ->
      Rsum (vec h (p_wei s)) = 1 -> 0 <= v < 1 ->
      exists h' s', resample (Z.to_nat n) s v h = Ok (h', s')).
Proof.
  intros Hreach.
  destruct (reachable_well_formed n s h Hreach) as (Hwf & Hnum).
  pose proof Hwf as (_ & Hone & Hparts & _).
  rewrite Hnum in Hone, Hparts.
  split; [exact Hone | ]. split; [exact Hnum | ]. split; [exact Hparts | ].
  split; [ | split].
  - intros lines.
    destruct (weight_effect get_polar_line default_odom s lines h Hwf)
      as (h1 & h' & s' & Eloop & E & En & _ & Hwf').
    exists h1, h', s'. split; [exact Eloop | ]. split; [exact E | ].
    assert (Hs : s' = snd (normalized s h1)) by (rewrite <- En; reflexivity).
    assert (Hh : h' = fst (normalized s h1)) by (rewrite <- En; reflexivity).
    split.
    + destruct Hwf' as (_ & _ & Hp & _).
      replace (num s') with n in Hp by (rewrite Hs; simpl; congruence).
      exact Hp.
    + intros Hraw. rewrite Hs, Hh. simpl. rewrite upd_same, Rsum_div.
      field. exact Hraw.
  - intros fuel v h' s' E.
    destruct (resample_Ok fuel s s' v h h' Hwf E)
      as ((_ & _ & Hp & _) & Hnum' & _ & Hw & _).
    rewrite Hnum', Hnum in Hp. rewrite Hnum in Hw.
    split; [exact Hp | ]. rewrite Hw. split.
    + apply Forall_forall. intros x Hx.
      apply scaled_ones_all in Hx. exact Hx.
    + rewrite Rsum_scaled_ones, INR_IZR_INZ, Z2Nat.id by lia.
      field. apply not_0_IZR. lia.
  - intros v Htwo Hpos Hsum Hv. rewrite <- Hnum.
    apply resample_returns; try assumption; try lia.
Qed.

(** C6 (as amended).  Given that [angle_wrap] returns angles of (−π, π]:
    [__init__], drawing in [0, 1), leaves every heading in [0, 2π);
    a [predict] with a non-zero delta returns and leaves every heading in
    (−π, π]; and once every heading is in (−π, π] it stays there through
    every [predict], [weight] and [resample] that returns. *)
Theorem headings_range :
  (forall a, wrapped (angle_wrap a)) ->
  (forall rm n ols oas mrn man x y t rnd h0 h s,
      (forall k, 0 <= rnd k < 1) ->
      init rm n ols oas mrn man x y t rnd h0 = Ok (h, s) ->
      Forall (fun a => 0 <= a < 2 * PI) (vec h (p_ang s))) /\
  (forall s h,
      well_formed s h ->
      (forall odom gauss,
          is_zero_odom odom = false ->
          exists h' s',
            predict' s odom gauss h = Ok (h', s') /\
            Forall wrapped (vec h' (p_ang s'))) /\
      (Forall wrapped (vec h (p_ang s)) ->
       (forall odom gauss h' s',
           predict' s odom gauss h = Ok (h', s') ->
           Forall wrapped (vec h' (p_ang s'))) /\
       (forall lines h' s',
           weight' s lines h = Ok (h', s') ->
           Forall wrapped (vec h' (p_ang s'))) /\
       (forall fuel v h' s',
           resample fuel s v h = Ok (h', s') ->
           Forall wrapped (vec h' (p_ang s'))))).
Proof.
  intros Hwrap. split.
  - intros rm n ols oas mrn man x y t rnd h0 h s Hrnd E.
    destruct (init_well_formed _ _ _ _ _ _ _ _ _ _ _ _ _ E) as (Hrm & Hn & _).
    destruct (init_returns rm n ols oas mrn man x y t rnd h0 Hrm Hn)
      as (h1 & s1 & E1 & _ & _ & _ & _ & _ & _ & _ & _ & _ & _ & _ & Hang & _).
    rewrite E1 in E. injection E as <- <-. rewrite Hang.
    apply Forall_forall. intros a Ha. unfold take in Ha.
    rewrite in_map_iff in Ha. destruct Ha as (u & <- & Hu).
    rewrite in_map_iff in Hu. destruct Hu as (k & <- & _).
    pose proof PI_RGT_0. pose proof (Hrnd k). nra.
  - intros s h Hwf.
    assert (Hmap : forall moved, Forall wrapped (List.map angle_wrap moved)).
    { intros moved. apply Forall_forall. intros a Ha.
      rewrite in_map_iff in Ha. destruct Ha as (b & <- & _). apply Hwrap. }
    split.
    + intros odom gauss Hz.
      destruct (predict_moving angle_wrap s odom gauss h Hwf Hz)
        as (h' & s' & E & _ & _ & _ & _ & _ & (moved & Hm) & _).
      exists h', s'. split; [exact E | ]. rewrite Hm. apply Hmap.
    + intros Hin. split; [ | split].
      * intros odom gauss h' s' E.
        destruct (predict_Ok s s' odom gauss h h' Hwf E)
          as (_ & _ & [Hsame | (moved & Hm)]).
        -- injection Hsame as -> ->. exact Hin.
        -- rewrite Hm. apply Hmap.
      * intros lines h' s' E.
        destruct (weight_Ok_effect s s' lines h h' Hwf E)
          as (_ & _ & (Hv & _) & Hp).
        destruct Hwf as (_ & _ & _ & Hne & _).
        rewrite Hp, Hv by auto. exact Hin.
      * intros fuel v h' s' E.
        destruct (resample_Ok fuel s s' v h h' Hwf E) as (_ & _ & _ & _ & Hsub).
        rewrite Forall_forall in *. intros a Ha. apply Hin, Hsub, Ha.
Qed.

End Lifecycle.

Lemma particle_count_and_weight_sum_witness :
  exists h s,
    init [(0, 0, 1, 0)] 2 1 1 1 1 0 0 0 (fun _ => 0) empty_heap = Ok (h, s) /\
    reachable get_polar_line_model origin angle_wrap_model 2 s h /\
    num s = 2%Z /\ particles 2 s h.
Proof.
  eexists; eexists. split; [reflexivity | ].
  pose (Hreach := reach_init get_polar_line_model origin angle_wrap_model
                    [(0, 0, 1, 0)] 2 1 1 1 1 0 0 0 (fun _ => 0) empty_heap _ _
                    eq_refl).
  split; [exact Hreach | ].
  destruct (particle_count_and_weight_sum get_polar_line_model origin
              angle_wrap_model 2 _ _ Hreach) as (_ & Hnum & Hparts & _).
  split; [exact Hnum | exact Hparts].
Defined.

(** C6 (counterexample).  Constructed with one particle and the draw
    0.75, the filter has the heading 2π · 0.75 = 3π/2, which is not in
    (−π, π]. *)
Lemma heading_after_init_not_wrapped :
  exists h s,
    init [(0, 0, 1, 0)] 1 1 1 1 1 0 0 0 (fun _ => 3 / 4) empty_heap = Ok (h, s) /\
    0 <= 3 / 4 < 1 /\
    vec h (p_ang s) = [2 * PI * (3 / 4)] /\
    ~ Forall wrapped (vec h (p_ang s)).
Proof.
  eexists; eexists. split; [reflexivity | ].
  split; [lra | ]. split; [reflexivity | ].
  simpl. intros H. inversion H as [ | a l [_ Hle] _]; subst.
  pose proof PI_RGT_0. lra.
Qed.

Lemma moving_delta : is_zero_odom (1, 0, 0) = false.
Proof.
  unfold is_zero_odom. destruct (Req_dec_T 1 0) as [E | _]; [lra | reflexivity].
Qed.

Lemma headings_range_witness :
  (forall a, wrapped (angle_wrap_model a)) /\
  well_formed example_filter example_heap /\
  is_zero_odom (1, 0, 0) = false /\
  exists h' s',
    predict angle_wrap_model example_filter (1, 0, 0) (fun _ => 0) example_heap
      = Ok (h', s') /\
    Forall wrapped (vec h' (p_ang s')).
Proof.
  split; [exact angle_wrap_model_wrapped | ].
  split; [exact example_well_formed | ].
  split; [exact moving_delta | ].
  destruct (headings_range get_polar_line_model origin angle_wrap_model
              angle_wrap_model_wrapped) as [_ H].
  destruct (H example_filter example_heap example_well_formed) as [Hmove _].
  exact (Hmove (1, 0, 0) (fun _ => 0) moving_delta).
Defined.

(** ** The mean particle *)

Lemma arctan2_down : arctan2 (- 1) 0 = - (PI / 2).
Proof. unfold arctan2. decide_order. Qed.

(** C9 (counterexample).  The filter constructed with one particle and
    the draw 0.75 has one particle of weight 1 and heading 3π/2;
    [get_mean_particle] returns the heading −π/2. *)
Lemma mean_heading_differs :
  exists h s,
    init [(0, 0, 1, 0)] 1 1 1 1 1 0 0 0 (fun _ => 3 / 4) empty_heap = Ok (h, s) /\
    one_hot (vec h (p_wei s)) 0 /\
    nth 0 (vec h (p_ang s)) 0 = 3 * (PI / 2) /\
    exists x y a,
      get_mean_particle s h = Ok (x, y, a) /\
      a = - (PI / 2) /\
      a <> nth 0 (vec h (p_ang s)) 0.
Proof.
  eexists; eexists. split; [reflexivity | ].
  assert (Hhot : one_hot [1 / 1 * 1] 0).
  { split; [simpl; lia | ]. intros [ | j] Hj; simpl in Hj; [ | lia].
    simpl. lra. }
  split; [exact Hhot | ].
  split; [simpl; lra | ].
  eexists; eexists; eexists.
  split.
  - apply (mean_of_one_hot _ _ 1 0); [ | exact Hhot].
    unfold particles; simpl. repeat split; reflexivity.
  - simpl. replace (2 * PI * (3 / 4)) with (3 * (PI / 2)) by lra.
    rewrite sin_3PI2, cos_3PI2, arctan2_down.
    split; [reflexivity | ]. pose proof PI_RGT_0. lra.
Qed.

(** C9 (as amended).  In a set of [n] particles where particle [k] has
    weight 1 and every other weight 0, and where the heading of particle
    [k] is in (−π, π], [get_mean_particle] returns exactly the pose of
    particle [k]; its heading is the circular mean of the headings. *)
Theorem mean_of_single_particle (s : ParticleFilter) (h : heap) (n k : nat) :
  particles n s h ->
  one_hot (vec h (p_wei s)) k ->
  wrapped (nth k (vec h (p_ang s)) 0) ->
  get_mean_particle s h =
    Ok (nth k (fst (mat h (p_xy s))) 0,
        nth k (snd (mat h (p_xy s))) 0,
        nth k (vec h (p_ang s)) 0) /\
  nth k (vec h (p_ang s)) 0 =
    arctan2 (Rsum (zip_with Rmult (vec h (p_wei s)) (List.map sin (vec h (p_ang s)))))
            (Rsum (zip_with Rmult (vec h (p_wei s)) (List.map cos (vec h (p_ang s))))).
Proof.
  intros Hp Hw Hrange. pose proof Hp as (Lw & La & _). pose proof Hw as [Hk _].
  split.
  - rewrite (mean_of_one_hot s h n k Hp Hw).
    rewrite arctan2_sin_cos by exact Hrange. reflexivity.
  - rewrite !(dot_one_hot _ k) by (rewrite ?length_map; auto; congruence).
    rewrite !nth_map_in_range by congruence.
    symmetry. apply arctan2_sin_cos. exact Hrange.
Qed.

Lemma single_one_hot : one_hot (vec single_heap (p_wei example_filter)) 1.
Proof.
  split; [simpl; lia | ].
  intros [ | [ | [ | j]]] Hj; simpl in *; try reflexivity. lia.
Qed.

Lemma mean_of_single_particle_witness :
  particles 3 example_filter single_heap /\
  one_hot (vec single_heap (p_wei example_filter)) 1 /\
  wrapped (nth 1 (vec single_heap (p_ang example_filter)) 0) /\
  get_mean_particle example_filter single_heap = Ok (0, 1, 1).
Proof.
  assert (Hp : particles 3 example_filter single_heap).
  { unfold particles; simpl. repeat split; reflexivity. }
  assert (Hr : wrapped (nth 1 (vec single_heap (p_ang example_filter)) 0)).
  { simpl. unfold wrapped. pose proof PI_gt_3. lra. }
  split; [exact Hp | ]. split; [exact single_one_hot | ]. split; [exact Hr | ].
  exact (proj1 (mean_of_single_particle example_filter single_heap 3 1
                  Hp single_one_hot Hr)).
Defined.

(** * Further properties *)

(** ** Lists and loops, continued *)

Lemma list_set_nth (a : list R) (j i : nat) (v : R) :
  (j < length a)%nat ->
  nth i (list_set a j v) 0 = if Nat.eqb i j then v else nth i a 0.
Proof.
  revert j i. induction a as [ | x a IH]; intros [ | j] [ | i] H; simpl in *;
    try lia; try reflexivity.
  apply IH. lia.
Qed.

Lemma list_set_same (a : list R) (j : nat) :
  list_set a j (nth j a 0) = a.
Proof.
  revert j. induction a as [ | x a IH]; intros [ | j]; simpl; try reflexivity.
  rewrite IH. reflexivity.
Qed.

Lemma norm_index_nonneg (len : nat) (k : Z) (j : nat) :
  (0 <= k)%Z -> norm_index len k = Ok j -> j = Z.to_nat k /\ (j < len)%nat.
Proof.
  intros Hk E. split; [ | eapply norm_index_Ok; exact E].
  unfold norm_index in E.
  destruct (Z.ltb_spec k 0) as [Hn | _]; [lia | ].
  destruct ((0 <=? k)%Z && (k <? Z.of_nat len)%Z); [ | discriminate].
  inversion E. reflexivity.
Qed.

Lemma getitem_Ok_nth (a : list R) (k : Z) (x : R) :
  (0 <= k)%Z -> getitem a k = Ok x ->
  x = nth (Z.to_nat k) a 0 /\ (Z.to_nat k < length a)%nat.
Proof.
  intros Hk E. unfold getitem in E. apply bind_Ok in E.
  destruct E as (j & Ej & E). inversion E; subst x.
  destruct (norm_index_nonneg _ _ _ Hk Ej) as [-> Hj]. split; [reflexivity | exact Hj].
Qed.

Lemma setitem_Ok_set (a b : list R) (k : Z) (v : R) :
  (0 <= k)%Z -> setitem a k v = Ok b ->
  b = list_set a (Z.to_nat k) v /\ (Z.to_nat k < length a)%nat.
Proof.
  intros Hk E. unfold setitem in E. apply bind_Ok in E.
  destruct E as (j & Ej & E). inversion E; subst b.
  destruct (norm_index_nonneg _ _ _ Hk Ej) as [-> Hj]. split; [reflexivity | exact Hj].
Qed.

Lemma zip_with_nth (f : R -> R -> R) (a b : list R) (k : nat) :
  (k < length a)%nat -> (k < length b)%nat ->
  nth k (zip_with f a b) 0 = f (nth k a 0) (nth k b 0).
Proof.
  revert b k. induction a as [ | x a IH]; intros [ | y b] [ | k] Ha Hb;
    simpl in *; try lia; try reflexivity.
  apply IH; lia.
Qed.

Lemma take_nth (rnd : nat -> R) (off n k : nat) :
  (k < n)%nat -> nth k (take rnd off n) 0 = rnd (off + k)%nat.
Proof.
  intros Hk. unfold take.
  rewrite (nth_indep _ 0 (rnd 0%nat)) by (rewrite length_map, length_seq; exact Hk).
  rewrite map_nth, seq_nth by exact Hk. reflexivity.
Qed.

(** A loop over [range n] whose invariant follows the index. *)
Lemma for_each_counted {St : Type} (P : Z -> St -> Prop) (body : Z -> St -> result St)
    (len : nat) :
  forall (a : nat) (s : St),
    P (Z.of_nat a) s ->
    (forall i s, (Z.of_nat a <= i < Z.of_nat (a + len))%Z -> P i s ->
                 exists s', body i s = Ok s' /\ P (i + 1)%Z s') ->
    exists s', for_each (List.map Z.of_nat (seq a len)) body s = Ok s' /\
               P (Z.of_nat (a + len)) s'.
Proof.
  induction len as [ | len IH]; intros a s Hs Hbody; simpl.
  - exists s. rewrite Nat.add_0_r. split; [reflexivity | exact Hs].
  - destruct (Hbody (Z.of_nat a) s ltac:(lia) Hs) as (s1 & E1 & Hs1).
    rewrite E1. simpl.
    replace (a + S len)%nat with (S a + len)%nat by lia.
    apply IH.
    + replace (Z.of_nat (S a)) with (Z.of_nat a + 1)%Z by lia. exact Hs1.
    + intros i t Hi. apply Hbody. lia.
Qed.

(** ** The particle set built by [__init__] *)

(** X1.  Constructed from draws of [0, 1), the filter has every particle
    within half a unit of the initial position on each axis, every weight
    equal to [1/num] and the weights summing to 1; [moving] is false and
    [n_eff] is 0.  The argument [theta_init] has no effect at all. *)
Theorem init_particles (rm : list line) (n : Z) (ols oas mrn man x y t : R)
    (rnd : nat -> R) (h0 h : heap) (s : ParticleFilter) :
  (forall k, 0 <= rnd k < 1) ->
  init rm n ols oas mrn man x y t rnd h0 = Ok (h, s) ->
  Forall (fun px => x - 0.5 <= px < x + 0.5) (fst (mat h (p_xy s))) /\
  Forall (fun py => y - 0.5 <= py < y + 0.5) (snd (mat h (p_xy s))) /\
  Forall (fun w => w = 1 / IZR n) (vec h (p_wei s)) /\
  Rsum (vec h (p_wei s)) = 1 /\
  moving s = false /\ n_eff s = 0 /\
  (forall t', init rm n ols oas mrn man x y t' rnd h0 = Ok (h, s)).
Proof.
  intros Hrnd E.
  destruct (init_well_formed _ _ _ _ _ _ _ _ _ _ _ _ _ E) as (Hrm & Hn & _).
  assert (Hbox : forall c off len,
             Forall (fun p => c - 0.5 <= p < c + 0.5)
                    (List.map (fun u => c + 1 * u - 0.5) (take rnd off len))).
  { intros c off len. apply Forall_forall. intros p Hp.
    rewrite in_map_iff in Hp. destruct Hp as (u & <- & Hu).
    unfold take in Hu. rewrite in_map_iff in Hu. destruct Hu as (k & <- & _).
    pose proof (Hrnd k). lra. }
  destruct (init_returns rm n ols oas mrn man x y t rnd h0 Hrm Hn)
    as (h1 & s1 & E1 & _ & _ & _ & _ & _ & _ & _ & _ & _ & _ & Vw & _ & Vx).
  assert (Hflags : moving s = false /\ n_eff s = 0).
  { destruct rm as [ | l rm]; [contradiction | ].
    unfold init in E. simpl in E. unfold py_div, np_ones, draws in E.
    destruct (Z.eqb_spec n 0) as [E0 | _]; [lia | ].
    destruct (Z.ltb_spec n 0) as [E0 | _]; [lia | ].
    simpl in E. inversion E. split; reflexivity. }
  rewrite E1 in E. injection E as <- <-. rewrite Vw, Vx. simpl.
  split; [apply Hbox | ]. split; [apply Hbox | ].
  split.
  { apply Forall_forall. intros w Hw. apply scaled_ones_all in Hw. exact Hw. }
  split.
  { rewrite Rsum_scaled_ones, INR_IZR_INZ, Z2Nat.id by lia.
    field. apply not_0_IZR. lia. }
  split; [apply Hflags | ]. split; [apply Hflags | ].
  intros t'. exact E1.
Qed.

Lemma init_particles_witness :
  exists h s,
    init [(0, 0, 1, 0)] 2 1 1 1 1 3 4 0 (fun _ => 0) empty_heap = Ok (h, s) /\
    Forall (fun px => 3 - 0.5 <= px < 3 + 0.5) (fst (mat h (p_xy s))) /\
    Rsum (vec h (p_wei s)) = 1.
Proof.
  eexists; eexists. split; [reflexivity | ].
  destruct (init_particles [(0, 0, 1, 0)] 2 1 1 1 1 3 4 0 (fun _ => 0)
              empty_heap _ _ ltac:(intros k; lra) eq_refl)
    as (Hx & _ & _ & Hsum & _).
  split; [exact Hx | exact Hsum].
Defined.

(** ** What [predict] does to each particle *)

Section PredictMotion.

Variable angle_wrap : R -> R.

Local Abbreviation predict' := (predict angle_wrap).

(** The arrays left by a [predict] with a non-zero delta. *)
Lemma predict_moving_state (s : ParticleFilter) (o0 o1 o2 : R)
    (gauss : nat -> R) (h : heap) :
  well_formed s h -> is_zero_odom (o0, o1, o2) = false ->
  exists h' s',
    predict' s (o0, o1, o2) gauss h = Ok (h', s') /\
    fst (mat h' (p_xy s')) =
      zip_with Rplus (fst (mat h (p_xy s)))
        (zip_with Rplus
           (List.map (fun a => o0 * cos a - o1 * sin a) (vec h (p_ang s)))
           (List.map (Rmult (odom_lin_sigma s))
              (take gauss 0 (Z.to_nat (num s))))) /\
    snd (mat h' (p_xy s')) =
      zip_with Rplus (snd (mat h (p_xy s)))
        (zip_with Rplus
           (List.map (fun a => o0 * sin a + o1 * cos a) (vec h (p_ang s)))
           (List.map (Rmult (odom_lin_sigma s))
              (take gauss (Z.to_nat (num s)) (Z.to_nat (num s))))) /\
    vec h' (p_ang s') =
      List.map angle_wrap
        (zip_with Rplus (vec h (p_ang s))
           (List.map (fun g => o2 + odom_ang_sigma s * g)
              (take gauss (Z.to_nat (num s) + Z.to_nat (num s))
                 (Z.to_nat (num s))))).
Proof.
  intros (Hmap & Hnum & (Lw & La & Lx & Ly) & Hne & Bw & Ba & Bx) Hz.
  unfold predict. rewrite Hz.
  set (n := Z.to_nat (num s)) in *.
  rewrite Lx, La.
  rewrite (broadcast_inplace_same_length Rplus
             (List.map (fun a => o0 * cos a - o1 * sin a) (vec h (p_ang s))))
    by (rewrite !length_map, take_length; exact La).
  simpl bind.
  rewrite (broadcast_inplace_same_length Rplus
             (List.map (fun a => o0 * sin a + o1 * cos a) (vec h (p_ang s))))
    by (rewrite !length_map, take_length; exact La).
  simpl bind.
  rewrite (broadcast_inplace_same_length Rplus (fst (mat h (p_xy s))))
    by (rewrite zip_with_same_length; rewrite !length_map, ?take_length; congruence).
  simpl bind. rewrite !upd_same. simpl fst. simpl snd.
  rewrite (broadcast_inplace_same_length Rplus (snd (mat h (p_xy s))))
    by (rewrite zip_with_same_length; rewrite !length_map, ?take_length; congruence).
  simpl bind.
  rewrite (broadcast_inplace_same_length Rplus (vec h (p_ang s)))
    by (rewrite !length_map, take_length; exact La).
  simpl.
  eexists; eexists. split; [reflexivity | ]. simpl.
  rewrite !upd_same. simpl. repeat split; reflexivity.
Qed.

(** X2.  A [predict] with a non-zero delta (dx, dy, dtheta), on a
    well-formed filter, moves particle [k] by the delta turned by the
    particle's own heading plus noise: the displacement along x is
    [dx cos θ − dy sin θ + odom_lin_sigma · g], along y
    [dx sin θ + dy cos θ + odom_lin_sigma · g'], and the new heading is
    [angle_wrap] of the old one plus [dtheta + odom_ang_sigma · g''],
    the three noises being distinct draws.  With no linear noise every
    particle moves by exactly the length of (dx, dy). *)
Theorem predict_particle_motion (s : ParticleFilter) (o0 o1 o2 : R)
    (gauss : nat -> R) (h : heap) :
  well_formed s h -> is_zero_odom (o0, o1, o2) = false ->
  exists h' s',
    predict' s (o0, o1, o2) gauss h = Ok (h', s') /\
    forall k, (k < Z.to_nat (num s))%nat ->
      let n := Z.to_nat (num s) in
      let x := nth k (fst (mat h (p_xy s))) 0 in
      let y := nth k (snd (mat h (p_xy s))) 0 in
      let theta := nth k (vec h (p_ang s)) 0 in
      let x' := nth k (fst (mat h' (p_xy s'))) 0 in
      let y' := nth k (snd (mat h' (p_xy s'))) 0 in
      x' = x + (o0 * cos theta - o1 * sin theta + odom_lin_sigma s * gauss k) /\
      y' = y + (o0 * sin theta + o1 * cos theta
                + odom_lin_sigma s * gauss (n + k)%nat) /\
      nth k (vec h' (p_ang s')) 0 =
        angle_wrap (theta + (o2 + odom_ang_sigma s * gauss (n + n + k)%nat)) /\
      (odom_lin_sigma s = 0 ->
       (x' - x) ^ 2 + (y' - y) ^ 2 = o0 ^ 2 + o1 ^ 2).
Proof.
  intros Hwf Hz.
  destruct (predict_moving_state s o0 o1 o2 gauss h Hwf Hz)
    as (h' & s' & E & Hx & Hy & Ha).
  exists h', s'. split; [exact E | ].
  destruct Hwf as (_ & _ & (_ & La & Lx & Ly) & _).
  intros k Hk n x y theta x' y'. subst n.
  set (n := Z.to_nat (num s)) in *.
  assert (Lmap : forall (f : R -> R) l, length l = n -> length (List.map f l) = n)
    by (intros f l Hl; rewrite length_map; exact Hl).
  assert (Ltake : forall (f : R -> R) off,
             length (List.map f (take gauss off n)) = n)
    by (intros f off; rewrite length_map, take_length; reflexivity).
  assert (Lzip : forall a b, length a = n -> length b = n ->
                             length (zip_with Rplus a b) = n)
    by (intros a b A B; rewrite zip_with_same_length; congruence).
  assert (Hlen : forall l : list R, length l = n -> (k < length l)%nat)
    by (intros l ->; exact Hk).
  assert (Ex : x' = x + (o0 * cos theta - o1 * sin theta
                         + odom_lin_sigma s * gauss k)).
  { unfold x'. rewrite Hx.
    rewrite zip_with_nth by (apply Hlen; auto).
    rewrite zip_with_nth by (apply Hlen; auto).
    rewrite !nth_map_in_range by (apply Hlen; auto using take_length).
    rewrite take_nth by exact Hk. reflexivity. }
  assert (Ey : y' = y + (o0 * sin theta + o1 * cos theta
                         + odom_lin_sigma s * gauss (n + k)%nat)).
  { unfold y'. rewrite Hy.
    rewrite zip_with_nth by (apply Hlen; auto).
    rewrite zip_with_nth by (apply Hlen; auto).
    rewrite !nth_map_in_range by (apply Hlen; auto using take_length).
    rewrite take_nth by exact Hk. reflexivity. }
  split; [exact Ex | ]. split; [exact Ey | ]. split.
  - rewrite Ha. rewrite nth_map_in_range by (apply Hlen; auto).
    rewrite zip_with_nth by (apply Hlen; auto).
    rewrite nth_map_in_range by (apply Hlen; auto using take_length).
    rewrite take_nth by exact Hk. reflexivity.
  - intros Hsigma. rewrite Ex, Ey, Hsigma.
    pose proof (sin2_cos2 theta) as Hunit. unfold Rsqr in Hunit.
    replace ((x + (o0 * cos theta - o1 * sin theta + 0 * gauss k) - x) ^ 2
             + (y + (o0 * sin theta + o1 * cos theta + 0 * gauss (n + k)%nat) - y) ^ 2)
      with ((o0 ^ 2 + o1 ^ 2) * (sin theta * sin theta + cos theta * cos theta))
      by ring.
    rewrite Hunit. ring.
Qed.

(** X3.  [predict] never touches the weights: on a well-formed filter
    it returns, whatever the delta, with [p_wei] the same array holding
    the same contents, the particle count and the map as they were, and
    [moving] telling whether the delta was non-zero. *)
Theorem predict_keeps_weights (s : ParticleFilter) (odom : R * R * R)
    (gauss : nat -> R) (h : heap) :
  well_formed s h ->
  exists h' s',
    predict' s odom gauss h = Ok (h', s') /\
    p_wei s' = p_wei s /\
    vec h' (p_wei s') = vec h (p_wei s) /\
    num s' = num s /\ room_map s' = room_map s /\
    moving s' = negb (is_zero_odom odom).
Proof.
  intros Hwf. destruct (is_zero_odom odom) eqn:Hz.
  - exists h, (set_moving s false).
    split; [apply predict_stationary; exact Hz | ].
    repeat split; reflexivity.
  - destruct (predict_moving angle_wrap s odom gauss h Hwf Hz)
      as (h' & s' & E & _ & Hn & Hm & Hp & Hv & _ & Hmov).
    exists h', s'. repeat split; assumption.
Qed.

End PredictMotion.

Lemma predict_particle_motion_witness :
  well_formed example_filter example_heap /\
  is_zero_odom (1, 0, 0) = false /\
  exists h' s',
    predict angle_wrap_model example_filter (1, 0, 0) (fun _ => 0) example_heap
      = Ok (h', s') /\
    nth 1 (fst (mat h' (p_xy s'))) 0 = 0 + (1 * cos 1 - 0 * sin 1 + 1 * 0).
Proof.
  split; [exact example_well_formed | ]. split; [exact moving_delta | ].
  destruct (predict_particle_motion angle_wrap_model example_filter 1 0 0
              (fun _ => 0) example_heap example_well_formed moving_delta)
    as (h' & s' & E & Hk).
  exists h', s'. split; [exact E | ].
  destruct (Hk 1%nat ltac:(simpl; lia)) as (Hx & _). exact Hx.
Defined.

Lemma predict_keeps_weights_witness :
  well_formed example_filter example_heap /\
  exists h' s',
    predict angle_wrap_model example_filter (1, 0, 0) (fun _ => 0) example_heap
      = Ok (h', s') /\
    vec h' (p_wei s') = [1 / 5; 1 / 2; 3 / 10].
Proof.
  split; [exact example_well_formed | ].
  destruct (predict_keeps_weights angle_wrap_model example_filter (1, 0, 0)
              (fun _ => 0) example_heap example_well_formed)
    as (h' & s' & E & _ & Hv & _).
  exists h', s'. split; [exact E | exact Hv].
Defined.

(** ** What [resample] draws from *)

Lemma resample_step_poses (fuel : nat) (s : ParticleFilter) (h : heap) (r : R)
    (i : Z) (st st' : walk) :
  well_formed s h -> (0 <= i)%Z -> walk_inv s h st -> poses_from s h st ->
  resample_step fuel s (p_xy s) (p_ang s) r i st = Ok st' ->
  poses_from s h st'.
Proof.
  intros Hwf Hi Hinv Hposes E.
  pose proof Hwf as (Hmap & Hnum & (Lw & La & Lx & Ly) & Hne & _).
  pose proof Hinv as (Hm & Hw & La' & Lx' & Ly' & Hn & Hin).
  unfold resample_step in E.
  apply bind_Ok in E. destruct E as ([m c] & Eadv & E).
  pose proof (advance_range _ _ _ _ _ _ _ _ Hnum Hm Eadv) as Hm'.
  apply bind_Ok in E. destruct E as (a & Ea & E).
  apply bind_Ok in E. destruct E as (ang_arr & Eset & E).
  apply bind_Ok in E. destruct E as (x & Ex & E).
  apply bind_Ok in E. destruct E as (y & Ey & E).
  apply bind_Ok in E. destruct E as (row0 & E0 & E).
  apply bind_Ok in E. destruct E as (row1 & E1 & E).
  inversion E; subst st'; clear E. simpl in Ex, Ey, E0, E1.
  destruct (getitem_Ok_nth _ m _ (proj1 Hm') Ea) as [-> _].
  destruct (getitem_Ok_nth _ m _ (proj1 Hm') Ex) as [-> _].
  destruct (getitem_Ok_nth _ m _ (proj1 Hm') Ey) as [-> _].
  destruct (setitem_Ok_set _ _ _ _ Hi Eset) as [-> Hia].
  destruct (setitem_Ok_set _ _ _ _ Hi E0) as [-> Hi0].
  destruct (setitem_Ok_set _ _ _ _ Hi E1) as [-> Hi1].
  intros k Hk. unfold pose_at; simpl. rewrite !upd_same. simpl.
  rewrite !list_set_nth by assumption.
  destruct (Nat.eqb k (Z.to_nat i)).
  - destruct (Hposes (Z.to_nat m) ltac:(lia)) as (j & Hj & Ej).
    exists j. split; [exact Hj | exact Ej].
  - destruct (Hposes k Hk) as (j & Hj & Ej).
    exists j. split; [exact Hj | exact Ej].
Qed.

(** X4.  [resample] only duplicates particles: after a call that
    returns, on a well-formed filter, the pose (position and heading) of
    every particle is the pose some particle had before the call;
    although the arrays are overwritten while they are read, no pose is
    made of parts of two particles. *)
Theorem resample_only_copies (fuel : nat) (s s' : ParticleFilter) (v : R)
    (h h' : heap) :
  well_formed s h -> resample fuel s v h = Ok (h', s') ->
  forall i, (i < Z.to_nat (num s))%nat ->
  exists j, (j < Z.to_nat (num s))%nat /\ pose_at s' h' i = pose_at s h j.
Proof.
  intros Hwf E.
  pose proof Hwf as (Hmap & Hnum & (Lw & La & Lx & Ly) & Hne & Bw & Ba & Bx).
  unfold resample in E. apply bind_Ok in E. destruct E as ([[xy ang] st] & Ewalk & E).
  unfold resample_walk in Ewalk.
  apply bind_Ok in Ewalk. destruct Ewalk as (r & _ & Ewalk).
  apply bind_Ok in Ewalk. destruct Ewalk as (c & _ & Ewalk).
  apply bind_Ok in Ewalk. destruct Ewalk as (st1 & Eloop & Ewalk).
  inversion Ewalk; subst xy ang st1; clear Ewalk.
  assert (Hinv : walk_inv s h st /\ poses_from s h st).
  { revert Eloop.
    apply (for_each_invariant (fun t => walk_inv s h t /\ poses_from s h t)).
    - intros i t t' Hi [Ht Hp] Estep. apply in_range in Hi. split.
      + eapply resample_step_inv; eassumption.
      + eapply resample_step_poses; try eassumption. lia.
    - split; [apply walk_inv_start; exact Hnum | ].
      intros i Hi. exists i. split; [exact Hi | reflexivity]. }
  destruct Hinv as ((_ & _ & _ & _ & _ & Hn & _) & Hposes).
  simpl in E. unfold py_div, np_ones in E.
  destruct (Z.eqb_spec (num s) 0) as [E0 | _]; [lia | ].
  destruct (Z.ltb_spec (num s) 0) as [E0 | _]; [lia | ].
  simpl in E. inversion E; subst h' s'; clear E.
  intros i Hi. destruct (Hposes i Hi) as (j & Hj & Ej).
  exists j. split; [exact Hj | ].
  unfold pose_at in *; simpl. rewrite upd_other by lia. exact Ej.
Qed.

Lemma resample_only_copies_witness :
  well_formed example_filter example_heap /\
  exists h' s',
    resample 3 example_filter (3 / 10) example_heap = Ok (h', s') /\
    exists j, (j < 3)%nat /\ pose_at s' h' 2 = pose_at example_filter example_heap j.
Proof.
  split; [exact example_well_formed | ].
  destruct (resample_returns 3 example_filter (3 / 10) example_heap
              example_well_formed) as (h' & s' & E);
    [simpl; lia | simpl; lia | simpl; repeat constructor; lra | simpl; lra | lra | ].
  exists h', s'. split; [exact E | ].
  exact (resample_only_copies 3 example_filter s' (3 / 10) example_heap h'
           example_well_formed E 2%nat ltac:(simpl; lia)).
Defined.

(** X5.  The walk of [resample] ends: on a well-formed filter of at
    least two particles whose weights are non-negative and sum to 1, and
    for a draw of [0, 1), [resample] returns within as many steps of each
    [while] loop as there are particles. *)
Theorem resample_terminates (s : ParticleFilter) (v : R) (h : heap) :
  well_formed s h -> (2 <= num s)%Z ->
  Forall (fun x => 0 <= x) (vec h (p_wei s)) ->
  Rsum (vec h (p_wei s)) = 1 -> 0 <= v < 1 ->
  exists h' s', resample (Z.to_nat (num s)) s v h = Ok (h', s').
Proof.
  intros Hwf Htwo Hpos Hsum Hv.
  apply resample_returns; try assumption. lia.
Qed.

Lemma resample_terminates_witness :
  well_formed example_filter example_heap /\
  Rsum (vec example_heap (p_wei example_filter)) = 1 /\
  exists h' s', resample 3 example_filter (3 / 10) example_heap = Ok (h', s').
Proof.
  assert (Hsum : Rsum (vec example_heap (p_wei example_filter)) = 1)
    by (simpl; lra).
  split; [exact example_well_formed | ]. split; [exact Hsum | ].
  apply (resample_terminates example_filter (3 / 10) example_heap
           example_well_formed); [simpl; lia | | exact Hsum | lra].
  simpl. repeat constructor; lra.
Defined.

(** ** [resample] on uniform weights *)

Lemma advance_stay (fuel : nat) (s : ParticleFilter) (h : heap) (u : R) (m : Z)
    (c : R) :
  ~ u > c -> advance fuel s h u m c = Ok (m, c).
Proof.
  intros Hle. destruct fuel; simpl; destruct (Rgt_dec u c); tauto.
Qed.

Lemma advance_once (fuel : nat) (s : ParticleFilter) (h : heap) (u : R) (m : Z)
    (c w : R) :
  u > c ->
  getitem (vec h (p_wei s)) ((m + 1) mod num s) = Ok w ->
  ~ u > c + w ->
  advance (S fuel) s h u m c = Ok (((m + 1) mod num s)%Z, c + w).
Proof.
  intros Hgt Ew Hle. simpl. destruct (Rgt_dec u c) as [_ | Hn]; [ | contradiction].
  rewrite Ew. simpl. apply advance_stay. exact Hle.
Qed.

Lemma threshold_form (n i v : R) :
  0 < n -> v / (1 * n) + (1 * i) / (n * 1) = (v + i) * (1 / n).
Proof. intros Hn. field. lra. Qed.

Lemma uniform_step (fuel : nat) (s : ParticleFilter) (h : heap) (v : R) (i : Z)
    (st : walk) :
  well_formed s h -> (1 <= fuel)%nat ->
  Forall (fun w => w = 1 / IZR (num s)) (vec h (p_wei s)) ->
  0 < v < 1 -> (0 <= i < num s)%Z ->
  in_step s h i st ->
  exists st',
    resample_step fuel s (p_xy s) (p_ang s) (v / (1 * IZR (num s))) i st = Ok st' /\
    in_step s h (i + 1) st'.
Proof.
  intros Hwf Hfuel Huni Hv Hi (Ha & Hx & Hw & Hn & Hpos).
  pose proof Hwf as (Hmap & Hnum & (Lw & La & Lx & Ly) & Hne & Bw & Ba & Bx).
  assert (Hnpos : 0 < IZR (num s)) by (apply IZR_lt; lia).
  assert (Hq : 0 < 1 / IZR (num s)) by (apply Rdiv_lt_0_compat; lra).
  set (q := 1 / IZR (num s)) in *.
  assert (Hget : forall k, (0 <= k < num s)%Z ->
                           getitem (vec (w_heap st) (p_wei s)) k = Ok q).
  { intros k Hk. rewrite Hw. rewrite getitem_in_range by lia. f_equal.
    rewrite Forall_forall in Huni. apply Huni. apply nth_In. lia. }
  assert (Eadv : advance fuel s (w_heap st)
                   (v / (1 * IZR (num s)) + (1 * IZR i) / (IZR (num s) * 1))
                   (w_m st) (w_c st)
                 = Ok (i, IZR (i + 1) * q)).
  { rewrite threshold_form by exact Hnpos. fold q.
    destruct Hpos as [(Ei & Em & Ec) | (Hi1 & Em & Ec)].
    - subst i. rewrite Em, Ec. rewrite advance_stay by (simpl; nra).
      f_equal. f_equal. simpl. lra.
    - destruct fuel as [ | fuel]; [lia | ].
      rewrite Em, Ec.
      assert (Emod : ((i - 1 + 1) mod num s)%Z = i).
      { replace (i - 1 + 1)%Z with i by lia. apply Z.mod_small. lia. }
      rewrite (advance_once fuel s (w_heap st) _ (i - 1) (IZR i * q) q).
      + rewrite Emod. f_equal. f_equal. rewrite plus_IZR. simpl. lra.
      + nra.
      + rewrite Emod. apply Hget. lia.
      + nra. }
  unfold resample_step. rewrite Eadv. simpl bind.
  rewrite (getitem_in_range (vec (w_heap st) (p_ang s))) by (rewrite Ha; lia).
  simpl bind.
  rewrite setitem_in_range by (rewrite Ha; lia). simpl bind.
  rewrite list_set_same. simpl mat.
  rewrite !getitem_in_range by (rewrite Hx; lia). simpl bind.
  rewrite !setitem_in_range by (rewrite Hx; lia). simpl bind.
  rewrite !list_set_same.
  eexists. split; [reflexivity | ].
  unfold in_step; simpl. rewrite !upd_same.
  rewrite (upd_other _ _ (p_wei s)) by exact Hne.
  repeat split; try assumption.
  - rewrite Hx. destruct (mat h (p_xy s)); reflexivity.
  - right. repeat split; try lia; try reflexivity.
Qed.

(** X6.  On uniform weights [resample] changes nothing: on a well-formed
    filter of at least two particles whose weights all equal [1/num] (as
    after construction or after a previous [resample]), and for a draw
    strictly between 0 and 1, [resample] returns after one step at most
    of each [while] loop, and every position, heading and weight is what
    it was. *)
Theorem resample_uniform_identity (fuel : nat) (s : ParticleFilter) (v : R)
    (h : heap) :
  well_formed s h -> (2 <= num s)%Z -> (1 <= fuel)%nat ->
  Forall (fun w => w = 1 / IZR (num s)) (vec h (p_wei s)) ->
  0 < v < 1 ->
  exists h' s',
    resample fuel s v h = Ok (h', s') /\
    vec h' (p_ang s') = vec h (p_ang s) /\
    mat h' (p_xy s') = mat h (p_xy s) /\
    Forall (fun w => w = 1 / IZR (num s)) (vec h' (p_wei s')) /\
    length (vec h' (p_wei s')) = length (vec h (p_wei s)).
Proof.
  intros Hwf Htwo Hfuel Huni Hv.
  pose proof Hwf as (Hmap & Hnum & (Lw & La & Lx & Ly) & Hne & Bw & Ba & Bx).
  unfold resample, resample_walk, py_div, np_ones.
  destruct (Z.eqb_spec (num s) 0) as [E0 | _]; [lia | ].
  cbn [bind]. rewrite getitem_in_range by lia. cbn [bind].
  assert (Hfirst : nth (Z.to_nat 1) (vec h (p_wei s)) 0 = 1 / IZR (num s)).
  { rewrite Forall_forall in Huni. apply Huni. apply nth_In. lia. }
  unfold range.
  destruct (for_each_counted (in_step s h)
              (resample_step fuel s (p_xy s) (p_ang s) (v / (1 * IZR (num s))))
              (Z.to_nat (num s)) 0
              (Walk h 0 (nth (Z.to_nat 1) (vec h (p_wei s)) 0) []))
    as (st & Eloop & Hst).
  - unfold in_step; cbn [w_heap w_m w_c]. repeat split.
    left. repeat split. exact Hfirst.
  - intros i st Hi Hst. apply uniform_step; try assumption. lia.
  - rewrite Eloop. simpl.
    destruct (Z.eqb_spec (num s) 0) as [E0 | _]; [lia | ].
    destruct (Z.ltb_spec (num s) 0) as [E0 | _]; [lia | ].
    simpl. eexists; eexists. split; [reflexivity | ]. simpl.
    destruct Hst as (Ha & Hx & Hw & Hn & _).
    rewrite upd_same, upd_other by lia.
    split; [exact Ha | ]. split; [exact Hx | ]. split.
    + apply Forall_forall. intros w Hin. apply scaled_ones_all in Hin. exact Hin.
    + rewrite length_map, repeat_length. lia.
Qed.

Lemma resample_uniform_identity_witness :
  exists h s,
    init [(0, 0, 1, 0)] 2 1 1 1 1 0 0 0 (fun _ => 1 / 4) empty_heap = Ok (h, s) /\
    exists h' s',
      resample 1 s (1 / 2) h = Ok (h', s') /\
      vec h' (p_ang s') = vec h (p_ang s) /\
      mat h' (p_xy s') = mat h (p_xy s).
Proof.
  eexists; eexists. split; [reflexivity | ].
  pose proof (init_well_formed [(0, 0, 1, 0)] 2 1 1 1 1 0 0 0 (fun _ => 1 / 4)
                empty_heap _ _ eq_refl) as (_ & _ & Hwf).
  destruct (resample_uniform_identity 1 _ (1 / 2) _ Hwf)
    as (h' & s' & E & Ha & Hx & _);
    [simpl; lia | lia | | lra | ].
  - simpl. repeat constructor; lra.
  - exists h', s'. split; [exact E | ]. split; [exact Ha | exact Hx].
Defined.

(** ** The weights left by [weight] *)

Lemma fold_left_Rmax_ge (t : list R) (x : R) : x <= fold_left Rmax t x.
Proof.
  revert x. induction t as [ | y t IH]; intros x; simpl; [lra | ].
  apply Rle_trans with (Rmax x y); [apply Rmax_l | apply IH].
Qed.


Lemma np_max_nonneg (a : list R) (x : R) :
  Forall (fun y => 0 <= y) a -> np_max a = Ok x -> 0 <= x.
Proof.
  destruct a as [ | y t]; simpl; intros H E; [discriminate | ].
  inversion E; subst x. inversion H as [ | y' t' Hy Ht]; subst.
  apply Rle_trans with y; [exact Hy | apply fold_left_Rmax_ge].
Qed.


Lemma gated_Forall (P : R -> Prop) (l : line) (ms : list line) (w : list R) :
  P 0 -> Forall P w -> Forall P (gated l ms w).
Proof.
  intros H0. revert w. induction ms as [ | m ms IH]; intros [ | x w] H; simpl;
    try exact H.
  inversion H as [ | x' w' Hx Hw]; subst. constructor.
  - destruct (Rlt_dec (seg_len m) (seg_len l)); assumption.
  - apply IH. exact Hw.
Qed.


Lemma zip_with_Forall2 (P Q S : R -> Prop) (f : R -> R -> R) (a b : list R) :
  (forall x y, P x -> Q y -> S (f x y)) ->
  Forall P a -> Forall Q b -> Forall S (zip_with f a b).
Proof.
  intros Hf Ha. revert b. induction Ha as [ | x a Hx Ha IH]; intros b Hb; simpl.
  - constructor.
  - destruct Hb as [ | y b Hy Hb]; constructor; auto.
Qed.

Lemma val_rng_pos (s : ParticleFilter) : 0 < meas_rng_noise s -> 0 < val_rng s.
Proof.
  intros H. unfold val_rng. apply Rdiv_lt_0_compat; [lra | ].
  apply Rmult_lt_0_compat; [exact H | apply sqrt_2PI_pos].
Qed.

Lemma val_ang_pos (s : ParticleFilter) : 0 < meas_ang_noise s -> 0 < val_ang s.
Proof.
  intros H. unfold val_ang. apply Rdiv_lt_0_compat; [lra | ].
  apply Rmult_lt_0_compat; [exact H | apply sqrt_2PI_pos].
Qed.

Lemma Rsum_nonneg (a : list R) : Forall (fun x => 0 <= x) a -> 0 <= Rsum a.
Proof.
  induction 1 as [ | x a Hx Ha IH]; simpl; [lra | ]. fold (Rsum a). lra.
Qed.

Lemma zip_with_square (a : list R) :
  zip_with Rmult a a = List.map (fun x => x * x) a.
Proof.
  induction a as [ | x a IH]; simpl; [reflexivity | ]. rewrite IH. reflexivity.
Qed.

(** The sum of the squares of non-negative numbers is at most the square
    of their sum. *)
Lemma sum_squares_le (a : list R) :
  Forall (fun x => 0 <= x) a ->
  Rsum (List.map (fun x => x * x) a) <= Rsum a * Rsum a.
Proof.
  induction 1 as [ | x a Hx Ha IH]; simpl; [lra | ].
  fold (Rsum a). fold (Rsum (List.map (fun x => x * x) a)).
  pose proof (Rsum_nonneg a Ha). nra.
Qed.

(** The squared distances to [mu], summed. *)
Lemma sum_squared_distances (a : list R) (mu : R) :
  Rsum (List.map (fun x => (x - mu) * (x - mu)) a)
  = Rsum (List.map (fun x => x * x) a) - 2 * mu * Rsum a
    + INR (length a) * (mu * mu).
Proof.
  induction a as [ | x a IH].
  - simpl. lra.
  - change (length (x :: a)) with (S (length a)). rewrite S_INR. simpl.
    fold (Rsum a). fold (Rsum (List.map (fun x => x * x) a)).
    fold (Rsum (List.map (fun x => (x - mu) * (x - mu)) a)).
    rewrite IH. ring.
Qed.

Lemma sum_squares_ge (a : list R) :
  (0 < length a)%nat -> Rsum a = 1 ->
  1 / INR (length a) <= Rsum (List.map (fun x => x * x) a).
Proof.
  intros Hlen Hsum.
  assert (Hn : 0 < INR (length a)) by (apply lt_0_INR; exact Hlen).
  pose proof (sum_squared_distances a (1 / INR (length a))) as E.
  assert (Hpos : 0 <= Rsum (List.map (fun x => (x - 1 / INR (length a))
                                               * (x - 1 / INR (length a))) a)).
  { apply Rsum_nonneg. apply Forall_forall. intros y Hy.
    rewrite in_map_iff in Hy. destruct Hy as (x & <- & _).
    exact (Rle_0_sqr (x - 1 / INR (length a))). }
  rewrite E, Hsum in Hpos.
  replace (INR (length a) * (1 / INR (length a) * (1 / INR (length a))))
    with (1 / INR (length a)) in Hpos by (field; lra).
  lra.
Qed.

Section WeightValues.

Variable get_polar_line : line -> R * R * R -> R * R.
Variable default_odom : R * R * R.

Local Abbreviation weight_particle' := (weight_particle get_polar_line default_odom).
Local Abbreviation weight' := (weight get_polar_line default_odom).
Local Abbreviation likelihoods' := (likelihoods get_polar_line default_odom).

Lemma likelihoods_nonneg (s : ParticleFilter) (room : list (R * R)) (l : line) :
  0 < meas_rng_noise s -> 0 < meas_ang_noise s ->
  Forall (fun x => 0 <= x) (likelihoods' s room l).
Proof.
  intros Hr Ha. unfold likelihoods.
  pose proof (val_rng_pos s Hr) as Hvr. pose proof (val_ang_pos s Ha) as Hva.
  apply (zip_with_Forall2 (fun x => 0 <= x) (fun x => 0 <= x)).
  - intros x y Hx Hy. apply Rmult_le_pos; assumption.
  - apply gated_Forall; [lra | ]. apply Forall_forall. intros x Hx.
    rewrite in_map_iff in Hx. destruct Hx as (rk & <- & _). unfold wr.
    apply Rmult_le_pos; [lra | left; apply exp_pos].
  - apply gated_Forall; [lra | ]. apply Forall_forall. intros x Hx.
    rewrite in_map_iff in Hx. destruct Hx as (rk & <- & _). unfold wt.
    apply Rmult_le_pos; [lra | left; apply exp_pos].
Qed.

(** Non-negative weights stay non-negative through the loop. *)
Lemma weight_loop_nonneg (s : ParticleFilter) (lines : list line) (h h1 : heap) :
  0 < meas_rng_noise s -> 0 < meas_ang_noise s ->
  Forall (fun x => 0 <= x) (vec h (p_wei s)) ->
  for_each (range (num s)) (weight_particle' s lines) h = Ok h1 ->
  Forall (fun x => 0 <= x) (vec h1 (p_wei s)).
Proof.
  intros Hr Ha Hpos E. revert E.
  apply (for_each_invariant (fun t => Forall (fun x => 0 <= x) (vec t (p_wei s))));
    [ | exact Hpos].
  intros i t t' _ Ht E. unfold weight_particle in E.
  apply bind_Ok in E; destruct E as (x & _ & E).
  apply bind_Ok in E; destruct E as (y & _ & E).
  apply bind_Ok in E; destruct E as (a & _ & E).
  revert E.
  apply (for_each_invariant (fun u => Forall (fun x => 0 <= x) (vec u (p_wei s))));
    [ | exact Ht].
  intros l u u' _ Hu E.
  apply bind_Ok in E; destruct E as (w & Ew & E).
  apply bind_Ok in E; destruct E as (best & Eb & E).
  apply bind_Ok in E; destruct E as (wei & Eset & E).
  inversion E; subst u'. simpl. rewrite upd_same.
  rewrite Forall_forall in *. intros z Hz.
  destruct (setitem_In _ _ _ _ _ Eset Hz) as [-> | Hold]; [ | apply Hu; exact Hold].
  apply Rmult_le_pos.
  - apply Hu. eapply getitem_Ok_In; exact Ew.
  - eapply np_max_nonneg; [ | exact Eb]. apply likelihoods_nonneg; assumption.
Qed.

(** X7.  On a well-formed filter with positive measurement noises and
    non-negative weights, a [weight] whose raw weights do not sum to zero
    leaves non-negative weights that sum to 1, and an effective sample
    size [n_eff] between 1 and the number of particles. *)
Theorem weight_effective_sample_size (s : ParticleFilter) (lines : list line)
    (h h1 : heap) :
  well_formed s h ->
  0 < meas_rng_noise s -> 0 < meas_ang_noise s ->
  Forall (fun x => 0 <= x) (vec h (p_wei s)) ->
  for_each (range (num s)) (weight_particle' s lines) h = Ok h1 ->
  Rsum (vec h1 (p_wei s)) <> 0 ->
  exists h' s',
    weight' s lines h = Ok (h', s') /\
    Forall (fun x => 0 <= x) (vec h' (p_wei s')) /\
    Rsum (vec h' (p_wei s')) = 1 /\
    1 <= n_eff s' <= IZR (num s).
Proof.
  intros Hwf Hr Ha Hpos Eloop Hraw.
  pose proof (weight_loop_nonneg s lines h h1 Hr Ha Hpos Eloop) as Hpos1.
  pose proof (weight_loop_returns get_polar_line default_odom s lines h Hwf)
    as (h1' & Eloop' & (_ & _ & _ & Hlen)).
  rewrite Eloop in Eloop'. injection Eloop' as <-.
  destruct Hwf as (_ & Hnum & (Lw & _) & _).
  exists (fst (normalized s h1)), (snd (normalized s h1)).
  split; [rewrite (weight_after_loop _ _ s lines h h1 Eloop); reflexivity | ].
  simpl. rewrite upd_same.
  set (raw := vec h1 (p_wei s)) in *.
  set (wei := List.map (fun w => w / Rsum raw) raw).
  assert (Htot : 0 < Rsum raw).
  { pose proof (Rsum_nonneg raw Hpos1). lra. }
  assert (Hwpos : Forall (fun x => 0 <= x) wei).
  { apply Forall_forall. intros z Hz. unfold wei in Hz.
    rewrite in_map_iff in Hz. destruct Hz as (w & <- & Hw).
    rewrite Forall_forall in Hpos1. pose proof (Hpos1 w Hw) as Hw0.
    unfold Rdiv. apply Rmult_le_pos; [exact Hw0 | ].
    left. apply Rinv_0_lt_compat. exact Htot. }
  assert (Hwsum : Rsum wei = 1).
  { unfold wei. rewrite Rsum_div. field. lra. }
  assert (Hwlen : length wei = Z.to_nat (num s)).
  { unfold wei. rewrite length_map. rewrite Hlen. exact Lw. }
  split; [exact Hwpos | ]. split; [exact Hwsum | ].
  rewrite zip_with_square.
  pose proof (sum_squares_le wei Hwpos) as Hle. rewrite Hwsum in Hle.
  pose proof (sum_squares_ge wei ltac:(lia) Hwsum) as Hge.
  rewrite Hwlen, INR_IZR_INZ, Z2Nat.id in Hge by lia.
  assert (Hn : 0 < IZR (num s)) by (apply IZR_lt; lia).
  set (Q := Rsum (List.map (fun x => x * x) wei)) in *.
  assert (HQ : 0 < Q).
  { apply Rlt_le_trans with (1 / IZR (num s)); [ | exact Hge].
    apply Rdiv_lt_0_compat; lra. }
  split.
  - apply Rmult_le_reg_r with Q; [exact HQ | ].
    unfold Rdiv. rewrite Rmult_assoc, Rinv_l by lra. lra.
  - apply Rmult_le_reg_r with Q; [exact HQ | ].
    unfold Rdiv. rewrite Rmult_assoc, Rinv_l by lra.
    apply Rmult_le_compat_l with (r := IZR (num s)) in Hge; [ | lra].
    replace (IZR (num s) * (1 / IZR (num s))) with 1 in Hge by (field; lra).
    lra.
Qed.

End WeightValues.

Lemma weight_effective_sample_size_witness :
  well_formed example_filter example_heap /\
  exists h' s',
    weight get_polar_line_model origin example_filter [] example_heap = Ok (h', s') /\
    Rsum (vec h' (p_wei s')) = 1 /\
    1 <= n_eff s' <= 3.
Proof.
  split; [exact example_well_formed | ].
  destruct (weight_effective_sample_size get_polar_line_model origin
              example_filter [] example_heap example_heap example_well_formed)
    as (h' & s' & E & _ & Hsum & Hneff).
  - simpl; lra.
  - simpl; lra.
  - simpl. repeat constructor; lra.
  - apply weight_loop_empty. exact example_well_formed.
  - simpl. lra.
  - exists h', s'. split; [exact E | ]. split; [exact Hsum | exact Hneff].
Defined.

Section WeightCollapse.

Variable get_polar_line : line -> R * R * R -> R * R.
Variable default_odom : R * R * R.

Local Abbreviation weight_particle' := (weight_particle get_polar_line default_odom).
Local Abbreviation weight' := (weight get_polar_line default_odom).
Local Abbreviation likelihoods' := (likelihoods get_polar_line default_odom).




End WeightCollapse.


(** ** The raw weights in closed form *)

Section RawWeights.

Variable get_polar_line : line -> R * R * R -> R * R.
Variable default_odom : R * R * R.

Local Abbreviation weight_particle' := (weight_particle get_polar_line default_odom).
Local Abbreviation likelihoods' := (likelihoods get_polar_line default_odom).
Local Abbreviation best_factor' := (best_factor get_polar_line default_odom).

Lemma np_max_best_factor (s : ParticleFilter) (pose : R * R * R) (l : line)
    (best : R) :
  np_max (likelihoods' s
            (List.map (fun map_j => get_polar_line map_j pose) (room_map s)) l)
    = Ok best ->
  best = best_factor' s pose l.
Proof.
  unfold best_factor.
  destruct (likelihoods' s _ l) as [ | x t]; simpl; intros E;
    [discriminate | inversion E; reflexivity].
Qed.

Lemma lines_loop_product (s : ParticleFilter) (odompass : R * R * R) (i : Z) :
  (0 <= i)%Z ->
  forall (lines : list line) (h h' : heap),
    for_each lines
      (fun lines_j h =>
         w <- getitem (vec h (p_wei s)) i ;;
         best <- np_max (likelihoods' s
                   (List.map (fun map_j => get_polar_line map_j odompass)
                             (room_map s)) lines_j) ;;
         wei <- setitem (vec h (p_wei s)) i (w * best) ;;
         Ok (vec_set h (p_wei s) wei))
      h = Ok h' ->
    (forall k, k <> Z.to_nat i ->
               nth k (vec h' (p_wei s)) 0 = nth k (vec h (p_wei s)) 0) /\
    nth (Z.to_nat i) (vec h' (p_wei s)) 0 =
      fold_left (fun acc l => acc * best_factor' s odompass l) lines
                (nth (Z.to_nat i) (vec h (p_wei s)) 0).
Proof.
  intros Hi. induction lines as [ | l' lines IH]; intros h h' E.
  - simpl in E. inversion E; subst h'. split; reflexivity.
  - simpl in E. apply bind_Ok in E. destruct E as (h1 & Estep & E).
    apply bind_Ok in Estep. destruct Estep as (w & Ew & Estep).
    apply bind_Ok in Estep. destruct Estep as (best & Eb & Estep).
    apply bind_Ok in Estep. destruct Estep as (wei & Eset & Estep).
    inversion Estep; subst h1; clear Estep.
    destruct (getitem_Ok_nth _ _ _ Hi Ew) as [-> _].
    destruct (setitem_Ok_set _ _ _ _ Hi Eset) as [-> Hlen].
    apply np_max_best_factor in Eb. subst best.
    destruct (IH _ _ E) as [Hother Hprod]. simpl in Hother, Hprod.
    rewrite upd_same in Hother, Hprod. split.
    + intros k Hk. rewrite (Hother k Hk), list_set_nth by exact Hlen.
      destruct (Nat.eqb_spec k (Z.to_nat i)); [contradiction | reflexivity].
    + rewrite Hprod, list_set_nth, Nat.eqb_refl by exact Hlen. reflexivity.
Qed.

(** X9.  The raw weight of a particle after the loop of [weight] is its
    weight before the call multiplied, observed line after observed
    line, by the best likelihood of that line seen from the particle's
    own pose: particles do not influence one another before the
    normalization. *)
Theorem weight_raw_product (s : ParticleFilter) (lines : list line) (h : heap) :
  well_formed s h ->
  exists h1,
    for_each (range (num s)) (weight_particle' s lines) h = Ok h1 /\
    forall k, (k < Z.to_nat (num s))%nat ->
      nth k (vec h1 (p_wei s)) 0 =
        fold_left (fun acc l => acc * best_factor' s (pose_at s h k) l) lines
                  (nth k (vec h (p_wei s)) 0).
Proof.
  intros Hwf.
  pose proof Hwf as (_ & Hnum & (Lw & La & Lx & Ly) & Hne & _).
  destruct (for_each_counted
              (fun i t =>
                 only_weights s h t /\
                 forall k, (k < Z.to_nat (num s))%nat ->
                   nth k (vec t (p_wei s)) 0 =
                     if (Z.of_nat k <? i)%Z
                     then fold_left
                            (fun acc l => acc * best_factor' s (pose_at s h k) l)
                            lines (nth k (vec h (p_wei s)) 0)
                     else nth k (vec h (p_wei s)) 0)
              (weight_particle' s lines) (Z.to_nat (num s)) 0 h)
    as (h1 & Eloop & (Hfr & Hval)).
  - split; [apply only_weights_refl | ]. intros k Hk.
    destruct (Z.ltb_spec (Z.of_nat k) (Z.of_nat 0)); [lia | reflexivity].
  - intros i t Hi [Hfr Hval].
    destruct (weight_particle_returns get_polar_line default_odom s lines i h t
                Hwf Hfr ltac:(lia)) as (t' & E & Hfr').
    exists t'. split; [exact E | ]. split; [exact Hfr' | ].
    pose proof Hfr as (Hv & Hm & _ & _).
    unfold weight_particle in E.
    rewrite (Hm (p_xy s)), (Hv (p_ang s)) in E by auto.
    rewrite !getitem_in_range in E by lia. simpl bind in E.
    destruct (lines_loop_product s _ i ltac:(lia) lines t t' E) as [Hother Hi0].
    intros k Hk. destruct (Nat.eq_dec k (Z.to_nat i)) as [-> | Hnek].
    + rewrite Hi0, (Hval (Z.to_nat i) Hk).
      destruct (Z.ltb_spec (Z.of_nat (Z.to_nat i)) i); [lia | ].
      destruct (Z.ltb_spec (Z.of_nat (Z.to_nat i)) (i + 1)); [ | lia].
      reflexivity.
    + rewrite (Hother k Hnek), (Hval k Hk).
      destruct (Z.ltb_spec (Z.of_nat k) i);
        destruct (Z.ltb_spec (Z.of_nat k) (i + 1)); try lia; reflexivity.
  - fold (range (num s)) in Eloop. exists h1. split; [exact Eloop | ].
    intros k Hk. rewrite (Hval k Hk).
    destruct (Z.ltb_spec (Z.of_nat k) (Z.of_nat (0 + Z.to_nat (num s))));
      [reflexivity | lia].
Qed.

End RawWeights.

Lemma weight_raw_product_witness :
  well_formed example_filter example_heap /\
  exists h1,
    for_each (range (num example_filter))
      (weight_particle get_polar_line_model origin example_filter [long_line])
      example_heap = Ok h1 /\
    nth 1 (vec h1 (p_wei example_filter)) 0 =
      1 / 2 * best_factor get_polar_line_model origin example_filter
                (pose_at example_filter example_heap 1) long_line.
Proof.
  split; [exact example_well_formed | ].
  destruct (weight_raw_product get_polar_line_model origin example_filter
              [long_line] example_heap example_well_formed) as (h1 & E & Hk).
  exists h1. split; [exact E | ].
  exact (Hk 1%nat ltac:(simpl; lia)).
Defined.

(** ** The estimate of [get_mean_particle] *)

Lemma arctan2_range (y x : R) : - PI < arctan2 y x <= PI.
Proof.
  pose proof PI_RGT_0 as Hpi. unfold arctan2.
  pose proof (atan_bound (y / x)) as [Hlo Hhi].
  destruct (Rlt_dec 0 x) as [Hx | Hx]; [lra | ].
  destruct (Rlt_dec x 0) as [Hneg | Hnneg].
  - assert (Hinv : / x < 0) by (apply Rinv_lt_0_compat; exact Hneg).
    destruct (Rle_dec 0 y) as [Hy | Hy].
    + assert (Hq : y / x <= 0) by (unfold Rdiv; nra).
      assert (atan (y / x) <= 0).
      { destruct Hq as [Hlt | Heq].
        - left. rewrite <- atan_0. apply atan_increasing. exact Hlt.
        - rewrite Heq, atan_0. lra. }
      lra.
    + assert (Hq : 0 < y / x) by (unfold Rdiv; nra).
      assert (0 < atan (y / x)).
      { rewrite <- atan_0. apply atan_increasing. exact Hq. }
      lra.
  - destruct (Rlt_dec 0 y); [lra | ]. destruct (Rlt_dec y 0); lra.
Qed.


Lemma Rsum_scale (k : R) (w : list R) :
  Rsum (List.map (Rmult k) w) = k * Rsum w.
Proof.
  induction w as [ | a w IH]; simpl; [lra | ].
  fold (Rsum w). fold (Rsum (List.map (Rmult k) w)). rewrite IH. lra.
Qed.

Lemma dot_scale_r (k : R) (xs w : list R) :
  Rsum (zip_with Rmult xs (List.map (Rmult k) w)) = k * Rsum (zip_with Rmult xs w).
Proof.
  revert w. induction xs as [ | x xs IH]; intros [ | a w]; simpl; try lra.
  fold (Rsum (zip_with Rmult xs w)).
  fold (Rsum (zip_with Rmult xs (List.map (Rmult k) w))). rewrite IH. lra.
Qed.

Lemma dot_scale_l (k : R) (w ys : list R) :
  Rsum (zip_with Rmult (List.map (Rmult k) w) ys) = k * Rsum (zip_with Rmult w ys).
Proof.
  rewrite zip_with_Rmult_comm, dot_scale_r, zip_with_Rmult_comm. reflexivity.
Qed.



(** X11.  [get_mean_particle] does not need normalized weights: with the
    weights all multiplied by a non-zero factor, poses unchanged, it
    returns the same estimate, provided the weights do not sum to zero. *)
Theorem mean_particle_scale (s : ParticleFilter) (h : heap) (n : nat) (k : R) :
  particles n s h -> p_wei s <> p_ang s ->
  k <> 0 -> Rsum (vec h (p_wei s)) <> 0 ->
  get_mean_particle s
    (vec_set h (p_wei s) (List.map (Rmult k) (vec h (p_wei s))))
  = get_mean_particle s h.
Proof.
  intros (Lw & La & Lx & Ly) Hne Hk Hsum.
  unfold get_mean_particle. simpl.
  rewrite upd_same, upd_other by congruence.
  rewrite !broadcast_same_length by (rewrite ?length_map; congruence).
  simpl. rewrite !dot_scale_r, !dot_scale_l, Rsum_scale.
  set (W := Rsum (vec h (p_wei s))) in *.
  assert (Hq : forall S, k * S / (k * W) = S / W) by (intros S; field; split; assumption).
  rewrite !Hq. reflexivity.
Qed.

Lemma mean_particle_scale_witness :
  particles 3 example_filter example_heap /\
  get_mean_particle example_filter
    (vec_set example_heap (p_wei example_filter)
       (List.map (Rmult 10) (vec example_heap (p_wei example_filter))))
  = get_mean_particle example_filter example_heap.
Proof.
  assert (Hp : particles 3 example_filter example_heap).
  { unfold particles; simpl. repeat split; reflexivity. }
  split; [exact Hp | ].
  apply (mean_particle_scale example_filter example_heap 3 10 Hp).
  - simpl. discriminate.
  - lra.
  - simpl. lra.
Defined.

(** ** The waypoint driver *)

Section DriverProperties.

Import Driver.

Variable angle_wrap : R -> R.
Variable euler_from_quaternion : R * R * R * R -> R * R * R.

Local Abbreviation check_goal' := (check_goal angle_wrap).
Local Abbreviation has_arrived' := (has_arrived angle_wrap).
Local Abbreviation read_position' := (read_position euler_from_quaternion).
Local Abbreviation callback' := (callback angle_wrap euler_from_quaternion).
Local Abbreviation callbacks' := (callbacks angle_wrap euler_from_quaternion).

Lemma item_Done (a : list R) (k : Z) :
  (0 <= k < Z.of_nat (length a))%Z ->
  item a k = Done (nth (Z.to_nat k) a 0).
Proof.
  intros Hk. unfold item.
  destruct (Z.ltb_spec k 0); [lia | ].
  destruct (Z.leb_spec 0 k); [ | lia].
  destruct (Z.ltb_spec k (Z.of_nat (length a))); [ | lia].
  reflexivity.
Qed.

Lemma item_Raised (a : list R) (k : Z) :
  (Z.of_nat (length a) <= k)%Z -> item a k = Raised IndexError.
Proof.
  intros Hk. unfold item.
  destruct (Z.ltb_spec k 0); [lia | ].
  destruct (Z.ltb_spec k (Z.of_nat (length a))); [lia | ].
  rewrite andb_false_r. reflexivity.
Qed.

(** [compute_velocity] by cases, where the pose and the goal can be
    read. *)
Lemma compute_velocity_cases (d : driver) (px py pt gx gy : R) :
  position d = Some (px, py, pt) ->
  item (x d) (active_goal d) = Done gx ->
  item (y d) (active_goal d) = Done gy ->
  compute_velocity d =
  Done (if Rlt_dec (sqrt ((px - gx) ^ 2 + (py - gy) ^ 2)) (goal_th_xy d)
        then set_mov (set_vmsg d (MkTwist 0 0.5)) 0
        else if (mov d =? 0)%Z
        then if Rlt_dec (Rabs (arctan2 (gy - py) (gx - px) - pt)) 0.01
             then set_mov (set_vmsg d (MkTwist 0 0)) 1
             else set_vmsg d (MkTwist 0 ((arctan2 (gy - py) (gx - px) - pt) / 3))
        else if (mov d =? 1)%Z
        then set_vmsg d (MkTwist 0.15 0)
        else d).
Proof.
  intros Hp Hx Hy.
  unfold compute_velocity, dist_to_goal_xy, position_x, position_y,
    position_theta.
  cbn [set_vmsg set_mov x y theta active_goal position vmsg linear_x
       angular_z mov goal_th_xy goal_th_ang params_loaded].
  rewrite Hp, Hx, Hy. cbn [and_then].
  destruct (Rlt_dec _ (goal_th_xy d)); [reflexivity | ].
  destruct (mov d =? 0)%Z.
  - rewrite ?Hp, ?Hx, ?Hy. cbn [and_then].
    destruct (Rlt_dec _ 0.01); rewrite ?Hp; reflexivity.
  - destruct (mov d =? 1)%Z; reflexivity.
Qed.

Lemma check_goal_effect (d d' : driver) (w w' : ros) :
  check_goal' d w = Done (d', w') ->
  published w' = published w /\ vmsg d' = vmsg d /\
  x d' = x d /\ y d' = y d /\ theta d' = theta d /\
  position d' = position d /\
  ((d' = d /\ w' = w /\ has_arrived' d = Done false) \/
   (has_arrived' d = Done true /\
    active_goal d' = (active_goal d + 1)%Z /\ mov d' = 0%Z /\
    shutdown w' =
    (Z.of_nat (length (x d)) <? active_goal d + 2)%Z || shutdown w)).
Proof.
  unfold check_goal. destruct (has_arrived' d) as [[ | ] | e]; cbn [and_then].
  - unfold next_goal.
    cbn [set_mov set_active_goal x y theta active_goal position vmsg mov].
    replace (active_goal d + 1 + 1)%Z with (active_goal d + 2)%Z by lia.
    destruct (Z.of_nat (length (x d)) <? active_goal d + 2)%Z;
      intros E; injection E as <- <-; cbn; repeat split; right;
      repeat split; reflexivity.
  - intros E; injection E as <- <-. repeat split. left. repeat split.
  - discriminate.
Qed.

(** The command [compute_velocity] leaves in [vmsg]. *)
Lemma compute_velocity_command (d : driver) (px py pt gx gy : R) :
  position d = Some (px, py, pt) ->
  item (x d) (active_goal d) = Done gx ->
  item (y d) (active_goal d) = Done gy ->
  (mov d = 0 \/ mov d = 1)%Z ->
  - PI < pt <= PI ->
  exists d',
    compute_velocity d = Done d' /\
    x d' = x d /\ y d' = y d /\ theta d' = theta d /\
    active_goal d' = active_goal d /\ position d' = position d /\
    goal_th_xy d' = goal_th_xy d /\ goal_th_ang d' = goal_th_ang d /\
    (mov d' = 0 \/ mov d' = 1)%Z /\
    Rabs (angular_z (vmsg d')) < 2 * PI / 3 /\
    (linear_x (vmsg d') = 0 \/
     linear_x (vmsg d') = 0.15 /\ angular_z (vmsg d') = 0 /\
     mov d = 1%Z /\
     goal_th_xy d <= sqrt ((px - gx) ^ 2 + (py - gy) ^ 2)).
Proof.
  intros Hp Hx Hy Hm Hpt. pose proof PI_gt_3 as Hpi.
  rewrite (compute_velocity_cases d px py pt gx gy Hp Hx Hy).
  eexists; split; [reflexivity | ].
  destruct (Rlt_dec _ (goal_th_xy d)) as [Hd | Hd].
  { cbn. repeat split; auto. rewrite Rabs_pos_eq by lra. lra. }
  destruct (Z.eqb_spec (mov d) 0) as [Hm0 | Hm0].
  { destruct (Rlt_dec _ 0.01) as [Ha | Ha]; cbn.
    - repeat split; auto. rewrite Rabs_R0. lra.
    - repeat split; auto.
      pose proof (arctan2_range (gy - py) (gx - px)) as Ht.
      apply Rabs_def1; lra. }
  destruct (Z.eqb_spec (mov d) 1) as [Hm1 | Hm1]; [ | lia].
  cbn. repeat split; auto.
  - rewrite Rabs_R0. lra.
  - right. repeat split; auto. apply Rnot_lt_le in Hd. exact Hd.
Qed.

Lemma read_position_effect (d : driver) (msg : Odometry) :
  let d1 := read_position' d msg in
  position d1 =
  Some (position_x_of msg, position_y_of msg,
        snd (euler_from_quaternion (orientation_of msg))) /\
  x d1 = x d /\ y d1 = y d /\ theta d1 = theta d /\
  active_goal d1 = active_goal d /\ mov d1 = mov d /\
  vmsg d1 = vmsg d /\ goal_th_xy d1 = goal_th_xy d /\
  goal_th_ang d1 = goal_th_ang d.
Proof. cbn. repeat split. Qed.

(** X12.  Every callback with the active goal among the goals publishes
    exactly one command, whatever its outcome.  The command never drives
    and turns at once: its forward speed is 0, or it is 0.15 with no
    turn, and that only in the forward phase with the goal not nearer
    than the position threshold.  With the yaw of the message in
    (-pi, pi], the turn rate is below 2*pi/3 in size. *)
Theorem callback_command (d : driver) (w : ros) (msg : Odometry) :
  (mov d = 0 \/ mov d = 1)%Z ->
  (0 <= active_goal d < Z.of_nat (length (x d)))%Z ->
  length (y d) = length (x d) ->
  - PI < snd (euler_from_quaternion (orientation_of msg)) <= PI ->
  exists v r d' w',
    callback' d w msg = (r, (d', w')) /\
    published w' = published w ++ [v] /\
    (mov d' = 0 \/ mov d' = 1)%Z /\
    Rabs (angular_z v) < 2 * PI / 3 /\
    (linear_x v = 0 \/
     linear_x v = 0.15 /\ angular_z v = 0 /\ mov d = 1%Z /\
     goal_th_xy d <=
     goal_distance d (active_goal d) (position_x_of msg) (position_y_of msg)).
Proof.
  intros Hm Hk Hy Hyaw.
  destruct (read_position_effect d msg)
    as (Hp & Ex & Ey & Et & Ea & Em & Ev & Exy & Eang).
  unfold callback. set (d1 := read_position euler_from_quaternion d msg) in *.
  destruct (compute_velocity_command d1 _ _ _
              (nth (Z.to_nat (active_goal d)) (x d) 0)
              (nth (Z.to_nat (active_goal d)) (y d) 0) Hp)
    as (d2 & E2 & Ex2 & Ey2 & Et2 & Ea2 & Ep2 & Exy2 & Eang2 & Hm2 & Hrate & Hv).
  - rewrite Ex, Ea. apply item_Done. exact Hk.
  - rewrite Ey, Ea. apply item_Done. lia.
  - rewrite Em. exact Hm.
  - exact Hyaw.
  - rewrite E2. exists (vmsg d2).
    assert (Hcmd : linear_x (vmsg d2) = 0 \/
                   linear_x (vmsg d2) = 0.15 /\ angular_z (vmsg d2) = 0 /\
                   mov d = 1%Z /\
                   goal_th_xy d <=
                   goal_distance d (active_goal d) (position_x_of msg)
                     (position_y_of msg)).
    { destruct Hv as [Hv | (H1 & H2 & H3 & H4)]; [left; exact Hv | right].
      rewrite Em in H3. rewrite Exy in H4. repeat split; assumption. }
    destruct (check_goal angle_wrap d2 (publish d2 w)) as [[d3 w3] | e] eqn:E3.
    + destruct (check_goal_effect _ _ _ _ E3)
        as (Hpub & Hvm & _ & _ & _ & _ & Hcase).
      eexists _, d3, w3. split; [reflexivity | ].
      split; [rewrite Hpub; reflexivity | ].
      split; [ | split; assumption].
      destruct Hcase as [(-> & _) | (_ & _ & -> & _)]; [exact Hm2 | left; reflexivity].
    + eexists _, d2, (publish d2 w). split; [reflexivity | ].
      split; [reflexivity | ]. split; [exact Hm2 | ]. split; assumption.
Qed.

Lemma item_Done_inv (a : list R) (k : Z) (v : R) :
  item a k = Done v -> (0 <= k)%Z -> (k < Z.of_nat (length a))%Z.
Proof.
  unfold item. intros E Hk.
  destruct (Z.ltb_spec k 0); [lia | ].
  destruct (Z.ltb_spec k (Z.of_nat (length a))); [assumption | ].
  rewrite andb_false_r in E. discriminate.
Qed.

Lemma compute_velocity_Done (d d' : driver) :
  compute_velocity d = Done d' ->
  (exists gx, item (x d) (active_goal d) = Done gx) /\
  x d' = x d /\ y d' = y d /\ theta d' = theta d /\
  active_goal d' = active_goal d.
Proof.
  intros E.
  assert (H : exists px py pt gx gy,
             position d = Some (px, py, pt) /\
             item (x d) (active_goal d) = Done gx /\
             item (y d) (active_goal d) = Done gy).
  { revert E.
    unfold compute_velocity, dist_to_goal_xy, position_x, position_y.
    destruct (position d) as [[[px py] pt] | ]; [ | discriminate].
    cbn [and_then].
    destruct (item (x d) (active_goal d)) as [gx | ]; [ | discriminate].
    cbn [and_then].
    destruct (item (y d) (active_goal d)) as [gy | ]; [ | discriminate].
    intros _. exists px, py, pt, gx, gy. repeat split. }
  destruct H as (px & py & pt & gx & gy & Hp & Hx & Hy).
  split; [exists gx; exact Hx | ].
  rewrite (compute_velocity_cases d px py pt gx gy Hp Hx Hy) in E.
  injection E as <-.
  destruct (Rlt_dec _ (goal_th_xy d)); [repeat split | ].
  destruct (mov d =? 0)%Z.
  - destruct (Rlt_dec _ 0.01); repeat split.
  - destruct (mov d =? 1)%Z; repeat split.
Qed.

(** One callback keeps [tracking]. *)
Lemma callback_tracking (d d' : driver) (w w' : ros) (msg : Odometry) :
  tracking d w ->
  snd (callback' d w msg) = (d', w') ->
  tracking d' w' /\
  x d' = x d /\ y d' = y d /\ theta d' = theta d /\
  (active_goal d <= active_goal d' <= active_goal d + 1)%Z /\
  exists l, published w' = published w ++ l /\ (length l <= 1)%nat.
Proof.
  intros [Hk Hs].
  destruct (read_position_effect d msg)
    as (Hp & Ex & Ey & Et & Ea & Em & Ev & Exy & Eang).
  unfold callback. set (d1 := read_position euler_from_quaternion d msg) in *.
  destruct (compute_velocity d1) as [d2 | e] eqn:E2.
  - destruct (compute_velocity_Done _ _ E2) as ([gx Hgx] & Ex2 & Ey2 & Et2 & Ea2).
    apply item_Done_inv in Hgx; [ | lia]. rewrite Ex, Ea in Hgx.
    destruct (check_goal angle_wrap d2 (publish d2 w)) as [[d3 w3] | e] eqn:E3;
      cbn [snd]; intros E; injection E as <- <-.
    + destruct (check_goal_effect _ _ _ _ E3)
        as (Hpub & _ & Ex3 & Ey3 & Et3 & _ & Hcase).
      assert (Hl : exists l, published w3 = published w ++ l /\ (length l <= 1)%nat).
      { exists [vmsg d2]. split; [rewrite Hpub; reflexivity | simpl; lia]. }
      destruct Hcase as [(-> & -> & _) | (_ & Ea3 & _ & Es3)].
      * unfold tracking. cbn [publish shutdown].
        rewrite Ex2, Ea2, Ey2, Et2, Ex, Ea, Ey, Et.
        repeat split; try lia; try apply Hs; auto.
      * unfold tracking. rewrite Ex3, Ey3, Et3, Ea3, Es3.
        cbn [publish shutdown].
        rewrite Ex2, Ea2, Ey2, Et2, Ex, Ea, Ey, Et.
        assert (Hf : shutdown w = false).
        { destruct (shutdown w); [ | reflexivity].
          destruct (proj1 Hs eq_refl). lia. }
        rewrite Hf, orb_false_r.
        split; [split; [lia | ] | repeat split; try lia; exact Hl].
        destruct (Z.ltb_spec (Z.of_nat (length (x d))) (active_goal d + 2));
          split; try lia; try discriminate; reflexivity.
    + unfold tracking. cbn [publish shutdown published].
      rewrite Ex2, Ea2, Ey2, Et2, Ex, Ea, Ey, Et.
      repeat split; try lia; try apply Hs; auto.
      exists [vmsg d2]. split; [reflexivity | simpl; lia].
  - cbn [snd]. intros E; injection E as <- <-.
    unfold tracking. rewrite Ex, Ea, Ey, Et.
    repeat split; try lia; try apply Hs; auto.
    exists []. rewrite app_nil_r. split; [reflexivity | simpl; lia].
Qed.

(** X13.  Over any sequence of callbacks the goals are never changed, the
    index of the active goal never decreases and stays between 0 and the
    number of goals, shutdown is requested exactly when the index has
    passed the last of at least one goal, and at most one command is
    published per message. *)
Theorem goal_index_tracking (msgs : list Odometry) (d : driver) (w : ros) :
  tracking d w ->
  tracking (fst (callbacks' d w msgs)) (snd (callbacks' d w msgs)) /\
  x (fst (callbacks' d w msgs)) = x d /\
  y (fst (callbacks' d w msgs)) = y d /\
  theta (fst (callbacks' d w msgs)) = theta d /\
  (active_goal d <= active_goal (fst (callbacks' d w msgs)))%Z /\
  exists l,
    published (snd (callbacks' d w msgs)) = published w ++ l /\
    (length l <= length msgs)%nat.
Proof.
  revert d w. induction msgs as [ | msg msgs IH]; intros d w Ht.
  - cbn. split; [exact Ht | ]. repeat split; try lia.
    exists []. rewrite app_nil_r. split; [reflexivity | simpl; lia].
  - unfold callbacks. cbn [fold_left fst snd].
    destruct (snd (callback' d w msg)) as [d1 w1] eqn:E1.
    destruct (callback_tracking d d1 w w1 msg Ht E1)
      as (Ht1 & Ex & Ey & Et & Ha & l1 & Hl1 & Hn1).
    destruct (IH d1 w1 Ht1) as (Ht2 & Ex2 & Ey2 & Et2 & Ha2 & l2 & Hl2 & Hn2).
    unfold callbacks in *.
    split; [exact Ht2 | ].
    split; [congruence | ]. split; [congruence | ]. split; [congruence | ].
    split; [lia | ].
    exists (l1 ++ l2). split.
    + rewrite Hl2, Hl1, app_assoc. reflexivity.
    + rewrite length_app. simpl. lia.
Qed.

(** X14.  With the index of the active goal past the last goal, and so
    with no goal loaded, a callback records the pose, raises IndexError
    where it reads the goal, and publishes nothing; over any sequence of
    such callbacks the node is sent nothing and the index stays. *)
Theorem callback_past_last_goal (d : driver) (w : ros) (msg : Odometry)
    (msgs : list Odometry) :
  (Z.of_nat (length (x d)) <= active_goal d)%Z ->
  callback' d w msg = (Raised IndexError, (read_position' d msg, w)) /\
  snd (callbacks' d w msgs) = w /\
  active_goal (fst (callbacks' d w msgs)) = active_goal d.
Proof.
  intros Hk.
  assert (Hone : forall d0 m, (Z.of_nat (length (x d0)) <= active_goal d0)%Z ->
            callback' d0 w m = (Raised IndexError, (read_position' d0 m, w))).
  { intros d0 m H0. unfold callback, compute_velocity, dist_to_goal_xy.
    cbn [read_position set_position position_x position x active_goal and_then].
    rewrite (item_Raised _ _ H0). reflexivity. }
  split; [apply Hone; exact Hk | ].
  revert d Hk. induction msgs as [ | m ms IH]; intros d Hk.
  - split; reflexivity.
  - unfold callbacks. cbn [fold_left fst snd]. rewrite (Hone d m Hk).
    cbn [snd]. exact (IH (read_position' d m) Hk).
Qed.

(** X15.  A callback whose pose is within both thresholds of the active
    goal publishes the turn in place (forward speed 0, turn rate 0.5),
    moves on to the next goal and resets the phase.  At the last goal it
    requests shutdown and then raises IndexError where it prints the
    goal, the index being past the end; otherwise it returns. *)
Theorem callback_reaching_goal (d : driver) (w : ros) (msg : Odometry) :
  aligned d ->
  (0 <= active_goal d < Z.of_nat (length (x d)))%Z ->
  goal_distance d (active_goal d) (position_x_of msg) (position_y_of msg)
  < goal_th_xy d ->
  Rabs (angle_wrap (nth (Z.to_nat (active_goal d)) (theta d) 0 -
                    snd (euler_from_quaternion (orientation_of msg))))
  < goal_th_ang d ->
  exists d' w',
    callback' d w msg =
    ((if (active_goal d + 1 <? Z.of_nat (length (x d)))%Z
      then Done tt else Raised IndexError), (d', w')) /\
    published w' = published w ++ [MkTwist 0 0.5] /\
    active_goal d' = (active_goal d + 1)%Z /\ mov d' = 0%Z /\
    shutdown w' =
    (Z.of_nat (length (x d)) <=? active_goal d + 1)%Z || shutdown w.
Proof.
  intros [Ly Lt] Hk Hxy Hang.
  destruct (read_position_effect d msg)
    as (Hp & Ex & Ey & Et & Ea & Em & Ev & Exy & Eang).
  unfold callback. set (d1 := read_position euler_from_quaternion d msg) in *.
  assert (Hx1 : item (x d1) (active_goal d1)
                = Done (nth (Z.to_nat (active_goal d)) (x d) 0))
    by (rewrite Ex, Ea; apply item_Done; lia).
  assert (Hy1 : item (y d1) (active_goal d1)
                = Done (nth (Z.to_nat (active_goal d)) (y d) 0))
    by (rewrite Ey, Ea; apply item_Done; lia).
  assert (Ht1 : item (theta d1) (active_goal d1)
                = Done (nth (Z.to_nat (active_goal d)) (theta d) 0))
    by (rewrite Et, Ea; apply item_Done; lia).
  rewrite (compute_velocity_cases d1 _ _ _ _ _ Hp Hx1 Hy1).
  rewrite Exy. unfold goal_distance in Hxy.
  destruct (Rlt_dec _ (goal_th_xy d)) as [_ | Hn]; [ | contradiction].
  set (d2 := set_mov (set_vmsg d1 (MkTwist 0 0.5)) 0).
  assert (Harr : has_arrived angle_wrap d2 = Done true).
  { unfold has_arrived, has_arrived_xy, has_arrived_ang, dist_to_goal_xy,
      dist_to_goal_ang, position_x, position_y, position_theta.
    subst d2.
    cbn [set_mov set_vmsg x y theta active_goal position goal_th_xy
         goal_th_ang].
    rewrite Hp, Hx1, Hy1, Ht1, Exy, Eang. cbn [and_then].
    destruct (Rlt_dec _ (goal_th_xy d)) as [_ | Hn]; [ | contradiction].
    cbn [and_then].
    destruct (Rlt_dec _ (goal_th_ang d)) as [_ | Hn]; [ | contradiction].
    reflexivity. }
  unfold check_goal. rewrite Harr. cbn [and_then]. unfold next_goal.
  subst d2.
  cbn [set_mov set_vmsg set_active_goal x y theta active_goal position mov
       vmsg publish published shutdown].
  rewrite Ex, Ea.
  assert (Hout : forall d3,
            position d3 = position d1 -> x d3 = x d -> y d3 = y d ->
            theta d3 = theta d -> active_goal d3 = (active_goal d + 1)%Z ->
            print_goal_and_pose d3 =
            if (active_goal d + 1 <? Z.of_nat (length (x d)))%Z
            then Done tt else Raised IndexError).
  { intros d3 E1 E2 E3 E4 E5.
    unfold print_goal_and_pose, position_x, position_y, position_theta.
    rewrite E1, Hp, E2, E3, E4, E5. cbn [and_then].
    destruct (Z.ltb_spec (active_goal d + 1) (Z.of_nat (length (x d)))).
    - rewrite !item_Done by lia. reflexivity.
    - rewrite item_Raised by lia. reflexivity. }
  destruct (Z.ltb_spec (Z.of_nat (length (x d))) (active_goal d + 1 + 1));
    eexists _, _; (split; [rewrite Hout by (cbn; auto); reflexivity | ]);
    cbn; repeat split; auto.
  - destruct (Z.leb_spec (Z.of_nat (length (x d))) (active_goal d + 1));
      [reflexivity | lia].
  - destruct (Z.leb_spec (Z.of_nat (length (x d))) (active_goal d + 1));
      [lia | reflexivity].
Qed.

End DriverProperties.

Lemma callback_command_witness :
  (0 <= Driver.active_goal example_driver
   < Z.of_nat (length (Driver.x example_driver)))%Z /\
  exists v r d' w',
    Driver.callback (fun a => a) example_euler example_driver example_node
      example_odometry = (r, (d', w')) /\
    Driver.published w' = Driver.published example_node ++ [v] /\
    (Driver.mov d' = 0 \/ Driver.mov d' = 1)%Z /\
    Rabs (Driver.angular_z v) < 2 * PI / 3 /\
    (Driver.linear_x v = 0 \/
     Driver.linear_x v = 0.15 /\ Driver.angular_z v = 0 /\
     Driver.mov example_driver = 1%Z /\
     Driver.goal_th_xy example_driver <=
     goal_distance example_driver (Driver.active_goal example_driver)
       (Driver.position_x_of example_odometry)
       (Driver.position_y_of example_odometry)).
Proof.
  assert (Hk : (0 <= Driver.active_goal example_driver
                < Z.of_nat (length (Driver.x example_driver)))%Z)
    by (cbn; lia).
  split; [exact Hk | ].
  apply (callback_command (fun a => a) example_euler example_driver
           example_node example_odometry).
  - left. reflexivity.
  - exact Hk.
  - reflexivity.
  - cbn. pose proof PI_RGT_0. lra.
Defined.

Lemma goal_index_tracking_witness :
  tracking example_driver example_node /\
  tracking
    (fst (Driver.callbacks (fun a => a) example_euler example_driver
            example_node [example_odometry; example_odometry]))
    (snd (Driver.callbacks (fun a => a) example_euler example_driver
            example_node [example_odometry; example_odometry])).
Proof.
  assert (Ht : tracking example_driver example_node).
  { unfold tracking. cbn. split; [lia | ].
    split; [discriminate | intros [H _]; discriminate]. }
  split; [exact Ht | ].
  exact (proj1 (goal_index_tracking (fun a => a) example_euler
                  [example_odometry; example_odometry]
                  example_driver example_node Ht)).
Defined.

Lemma callback_past_last_goal_witness :
  (Z.of_nat (length (Driver.x (Driver.init 0.4 0.01)))
   <= Driver.active_goal (Driver.init 0.4 0.01))%Z /\
  Driver.callback (fun a => a) example_euler (Driver.init 0.4 0.01)
    example_node example_odometry
  = (Driver.Raised Driver.IndexError,
     (Driver.read_position example_euler (Driver.init 0.4 0.01)
        example_odometry, example_node)).
Proof.
  assert (Hk : (Z.of_nat (length (Driver.x (Driver.init 0.4 0.01)))
                <= Driver.active_goal (Driver.init 0.4 0.01))%Z)
    by (cbn; lia).
  split; [exact Hk | ].
  exact (proj1 (callback_past_last_goal (fun a => a) example_euler
                  (Driver.init 0.4 0.01) example_node example_odometry []
                  Hk)).
Defined.

Lemma callback_reaching_goal_witness :
  aligned example_driver /\
  exists d' w',
    Driver.callback (fun a => a) example_euler example_driver example_node
      (Driver.MkOdometry 1 0 (0, 0, 0, 1))
    = (Driver.Raised Driver.IndexError, (d', w')) /\
    Driver.published w' = [Driver.MkTwist 0 0.5] /\
    Driver.active_goal d' = 1%Z /\ Driver.mov d' = 0%Z /\
    Driver.shutdown w' = true.
Proof.
  assert (Ha : aligned example_driver) by (split; reflexivity).
  split; [exact Ha | ].
  apply (callback_reaching_goal (fun a => a) example_euler example_driver
           example_node (Driver.MkOdometry 1 0 (0, 0, 0, 1)) Ha).
  - cbn. lia.
  - unfold goal_distance. cbn.
    replace ((1 - 1) * ((1 - 1) * 1) + (0 - 0) * ((0 - 0) * 1)) with 0 by ring.
    rewrite sqrt_0. lra.
  - cbn. replace (0 - 0) with 0 by ring. rewrite Rabs_R0. lra.
Defined.

(** ** Loading the goals *)

Lemma load_rows_complete (rows : list (list (option R)))
    (goals : list (R * R * R)) :
  Forall2 row_of rows goals ->
  forall d : Driver.driver,
    Driver.load_rows rows d =
    (let d' :=
       Driver.set_goals d
         (Driver.x d ++ List.map (fun g => fst (fst g)) goals)
         (Driver.y d ++ List.map (fun g => snd (fst g)) goals)
         (Driver.theta d ++ List.map snd goals) in
     (Driver.Done d', d')).
Proof.
  induction 1 as [ | r g rows goals (H0 & H1 & H2) _ IH]; intros d.
  - cbn. rewrite !app_nil_r. destruct d; reflexivity.
  - cbn [Driver.load_rows]. rewrite H0, H1, H2, IH.
    unfold Driver.set_goals. cbn. rewrite <- !app_assoc. reflexivity.
Qed.

(** X16.  [load_goals] on a goal file whose rows each give three numbers
    returns with one goal appended per row, in the order of the file, to
    each of the three arrays, and with [params_loaded] set; arrays that
    had one entry per goal still have. *)
Theorem load_goals_file (d : Driver.driver) (rows : list (list (option R)))
    (goals : list (R * R * R)) (px py ptheta : R) :
  Forall2 row_of rows goals ->
  exists d',
    Driver.load_goals d (Some rows) px py ptheta = (Driver.Done d', d') /\
    Driver.x d' = Driver.x d ++ List.map (fun g => fst (fst g)) goals /\
    Driver.y d' = Driver.y d ++ List.map (fun g => snd (fst g)) goals /\
    Driver.theta d' = Driver.theta d ++ List.map snd goals /\
    Driver.params_loaded d' = true /\
    Driver.active_goal d' = Driver.active_goal d /\
    (aligned d -> aligned d').
Proof.
  intros Hrows. unfold Driver.load_goals.
  rewrite (load_rows_complete rows goals Hrows d). cbn.
  eexists. split; [reflexivity | ]. cbn.
  repeat (split; [reflexivity | ]).
  intros [Ly Lt]. unfold aligned. cbn.
  rewrite !length_app, !length_map. lia.
Qed.

Lemma load_goals_file_witness :
  Forall2 row_of [[Some 1; Some 2; Some 3]] [(1, 2, 3)] /\
  exists d',
    Driver.load_goals (Driver.init 0.4 0.01) (Some [[Some 1; Some 2; Some 3]])
      0 0 0 = (Driver.Done d', d') /\
    Driver.x d' = [1] /\ Driver.y d' = [2] /\ Driver.theta d' = [3].
Proof.
  assert (Hr : Forall2 row_of [[Some 1; Some 2; Some 3]] [(1, 2, 3)]).
  { constructor; [repeat split | constructor]. }
  split; [exact Hr | ].
  destruct (load_goals_file (Driver.init 0.4 0.01) _ _ 0 0 0 Hr)
    as (d' & E & Ex & Ey & Et & _).
  exists d'. repeat split; assumption.
Defined.

(** X17.  [load_goals] on a goal file with a row that gives its first
    number but not all three raises at that row, after appending to [x]:
    the rows before it are loaded, [params_loaded] is left as it was, and
    the goal arrays no longer have one entry per goal, [x] holding one
    entry more than [theta]. *)
Theorem load_goals_broken_row (d : Driver.driver)
    (good rest : list (list (option R))) (r : list (option R))
    (goals : list (R * R * R)) (v0 px py ptheta : R) :
  Forall2 row_of good goals ->
  Driver.field r 0 = Driver.Done v0 ->
  (forall v1 v2,
     ~ (Driver.field r 1 = Driver.Done v1 /\ Driver.field r 2 = Driver.Done v2)) ->
  aligned d ->
  exists e d',
    Driver.load_goals d (Some (good ++ r :: rest)) px py ptheta
    = (Driver.Raised e, d') /\
    Driver.params_loaded d' = Driver.params_loaded d /\
    Driver.x d' = Driver.x d ++ List.map (fun g => fst (fst g)) goals ++ [v0] /\
    Driver.theta d' = Driver.theta d ++ List.map snd goals /\
    ~ aligned d'.
Proof.
  intros Hgood H0 Hbad [Ly Lt]. unfold Driver.load_goals.
  assert (Hrows : forall d0 : Driver.driver,
            exists e d',
              Driver.load_rows (good ++ r :: rest) d0 = (Driver.Raised e, d') /\
              Driver.params_loaded d' = Driver.params_loaded d0 /\
              Driver.x d' =
              Driver.x d0 ++ List.map (fun g => fst (fst g)) goals ++ [v0] /\
              Driver.theta d' = Driver.theta d0 ++ List.map snd goals).
  { induction Hgood as [ | r' g good goals (G0 & G1 & G2) _ IH]; intros d0.
    - cbn [app Driver.load_rows]. rewrite H0.
      destruct (Driver.field r 1) as [v1 | e1] eqn:E1.
      + destruct (Driver.field r 2) as [v2 | e2] eqn:E2.
        * exfalso. apply (Hbad v1 v2). split; reflexivity.
        * eexists _, _. split; [reflexivity | ]. cbn.
          rewrite app_nil_r. repeat split.
      + eexists _, _. split; [reflexivity | ]. cbn.
        rewrite app_nil_r. repeat split.
    - cbn [app Driver.load_rows]. rewrite G0, G1, G2.
      match goal with
      | |- context [Driver.load_rows _ ?d1] =>
          destruct (IH d1) as (e & d' & E & Hp & Hx & Ht)
      end.
      exists e, d'. split; [exact E | ]. rewrite Hp, Hx, Ht. cbn.
      rewrite <- !app_assoc. repeat split. }
  destruct (Hrows d) as (e & d' & E & Hp & Hx & Ht).
  exists e, d'. rewrite E. repeat split; try assumption.
  intros [_ Lt']. rewrite Hx, Ht in Lt'.
  rewrite !length_app, !length_map in Lt'. simpl in Lt'.
  apply Forall2_length in Hgood. lia.
Qed.

Lemma load_goals_broken_row_witness :
  aligned (Driver.init 0.4 0.01) /\
  exists e d',
    Driver.load_goals (Driver.init 0.4 0.01) (Some [[Some 1]]) 0 0 0
    = (Driver.Raised e, d') /\
    Driver.x d' = [1] /\ Driver.theta d' = [] /\ ~ aligned d'.
Proof.
  assert (Ha : aligned (Driver.init 0.4 0.01)) by (split; reflexivity).
  split; [exact Ha | ].
  destruct (load_goals_broken_row (Driver.init 0.4 0.01) [] [] [Some 1] []
              1 0 0 0)
    as (e & d' & E & _ & Ex & Et & Hn).
  - constructor.
  - reflexivity.
  - intros v1 v2 [H _]. discriminate H.
  - exact Ha.
  - exists e, d'. repeat split; assumption.
Defined.
